(** * lorcanadb-data: the validation run and the locale merge tool

    A shallow embedding of [scripts/validate.js] and
    [scripts/update_locales.js].

    - JavaScript strings are [string]s; a character stands for one code unit
      (the data set is read as text, the model keeps the code units below 256).
    - Parsed YAML is a [value]; a JavaScript object is an association list
      in the engine's own-property order (array-index keys first, ascending,
      then the other keys in insertion order), because [_.values], the
      iteration of the locale list and the merge tool depend on that order.
    - A Number is an integer [VNum], printed as the engine prints it, or
      any other Number [VReal], given by its printed form.
    - A validator is a record [Validator] of the fields its constructor
      sets and a state [vstate] of what a run changes: its counters, the
      object its [collections] field refers to, the files and the standard
      output. A thrown exception is the outcome [Throw].
    - The external collaborators (glob, js-yaml, ajv) are the fields of
      [Env]; the properties below hold for every [Env]. *)

From Stdlib Require Import ZArith NArith Lia Ascii DecimalString.
From stdpp Require Import base strings list.

Local Open Scope Z_scope.
Local Set Warnings "-register-all".

(** ** Strings *)

Module Str.

Definition chars (s : string) : list ascii := String.list_ascii_of_string s.
Definition of_chars (l : list ascii) : string := String.string_of_list_ascii l.

Definition eqb (a b : string) : bool := bool_decide (a = b).

(** The decimal digits of a natural number. *)
Definition of_N (n : N) : string := NilEmpty.string_of_uint (N.to_uint n).

(** The Number nearest to a natural number: itself below 2^53, and above
    that the nearest multiple of the power of two that leaves 53 bits, the
    even one of two that are equally near. *)
Definition nearest_double (z : Z) : Z :=
  if z <? 2 ^ 53 then z
  else
    let e := Z.log2 z - 52 in
    let q := Z.shiftr z e in
    let r := z - Z.shiftl q e in
    let half := Z.shiftl 1 (e - 1) in
    let q' := if r <? half then q
              else if half <? r then q + 1
              else if Z.even q then q else q + 1 in
    Z.shiftl q' e.

Definition digit_count (z : Z) : Z := Z.of_nat (String.length (of_N (Z.to_N z))).

(** The decimal with the fewest significant digits, [k] or more, that
    denotes the Number [x]; of two with as many digits the nearer to [x]. *)
Fixpoint shortest_decimal (more : nat) (k x : Z) : Z :=
  match more with
  | O => x
  | S more' =>
      if digit_count x <=? k then x
      else
        let scale := 10 ^ (digit_count x - k) in
        let lo := x / scale * scale in
        let hi := lo + scale in
        let lo_ok := nearest_double lo =? x in
        let hi_ok := nearest_double hi =? x in
        if lo_ok && hi_ok then
          if x - lo <? hi - x then lo
          else if hi - x <? x - lo then hi
          else if Z.even (lo / scale) then lo else hi
        else if lo_ok then lo
        else if hi_ok then hi
        else shortest_decimal more' (k + 1) x
  end.

Fixpoint without_trailing_zeros (s : string) : string :=
  match s with
  | EmptyString => EmptyString
  | String a rest =>
      match without_trailing_zeros rest with
      | EmptyString => if bool_decide (a = "0"%char) then EmptyString else String a EmptyString
      | rest' => String a rest'
      end
  end.

(** [String(n)] for a Number that is an integer ([Number::toString]):
    the digits of the shortest decimal that denotes it, in exponent
    form from 10^21 on. An integer that is no Number stands for the Number
    nearest to it. *)
Definition of_Z (z : Z) : string :=
  let sign := if z <? 0 then "-" else EmptyString in
  let x := nearest_double (Z.abs z) in
  if 2 ^ 1024 <=? x then sign +:+ "Infinity"
  else
    let y := shortest_decimal 17 1 x in
    let ds := of_N (Z.to_N y) in
    if y <? 10 ^ 21 then sign +:+ ds
    else
      match without_trailing_zeros ds with
      | String d rest =>
          sign +:+ String d (if bool_decide (rest = EmptyString) then EmptyString
                             else "." +:+ rest)
          +:+ "e+" +:+ of_N (N.of_nat (String.length ds) - 1)
      | EmptyString => ds
      end.

(** [s.startsWith(p)] *)
Fixpoint startsWith (p s : string) : bool :=
  match p, s with
  | EmptyString, _ => true
  | String a p', String b s' => bool_decide (a = b) && startsWith p' s'
  | String _ _, EmptyString => false
  end.

(** [_.includes(s, p)] on a string: substring test. *)
Fixpoint includes (p s : string) : bool :=
  startsWith p s ||
  match s with
  | EmptyString => false
  | String _ s' => includes p s'
  end.

(** [s.endsWith(p)] for a one-character [p]. *)
Fixpoint endsWith (p : ascii) (s : string) : bool :=
  match s with
  | EmptyString => false
  | String a EmptyString => bool_decide (a = p)
  | String _ s' => endsWith p s'
  end.

(** [s.split(sep)] for a one-character separator: never empty. *)
Fixpoint split (sep : ascii) (s : string) : list string :=
  match s with
  | EmptyString => [EmptyString]
  | String c s' =>
      if bool_decide (c = sep) then EmptyString :: split sep s'
      else match split sep s' with
           | [] => [String c EmptyString]
           | w :: ws => String c w :: ws
           end
  end.

(** [l.join(sep)] *)
Fixpoint join (sep : string) (l : list string) : string :=
  match l with
  | [] => EmptyString
  | [x] => x
  | x :: r => x +:+ sep +:+ join sep r
  end.

(** [s.replaceAll(a, b)] for one-character [a] and [b]. *)
Fixpoint replaceAll (a b : ascii) (s : string) : string :=
  match s with
  | EmptyString => EmptyString
  | String c s' => String (if bool_decide (c = a) then b else c) (replaceAll a b s')
  end.

(** [_.repeat(" ", n)] *)
Fixpoint spaces (n : nat) : string :=
  match n with
  | O => EmptyString
  | S n' => String " " (spaces n')
  end.

Definition upper (c : ascii) : ascii :=
  let n := Ascii.N_of_ascii c in
  if ((97 <=? n) && (n <=? 122))%N then Ascii.ascii_of_N (n - 32) else c.

(** [_.upperFirst(s)] *)
Definition upperFirst (s : string) : string :=
  match s with
  | EmptyString => EmptyString
  | String c s' => String (upper c) s'
  end.

Definition digit (c : ascii) : option N :=
  let n := Ascii.N_of_ascii c in
  if ((48 <=? n) && (n <=? 57))%N then Some (n - 48)%N else None.

Fixpoint digits (acc : N) (s : string) : option N :=
  match s with
  | EmptyString => Some acc
  | String c s' =>
      match digit c with
      | Some d => digits (acc * 10 + d)%N s'
      | None => None
      end
  end.

(** The array index a property key denotes, if it is the canonical decimal
    form of an integer below 2^32 - 1. *)
Definition array_index (k : string) : option N :=
  match k with
  | EmptyString => None
  | _ =>
      match digits 0%N k with
      | Some n => if eqb (of_N n) k && (n <? 4294967295)%N then Some n else None
      | None => None
      end
  end.

End Str.

(** The first element of [path.split("/")]. *)
Definition first_segment (path : string) : string :=
  match Str.split "/" path with
  | w :: _ => w
  | [] => EmptyString
  end.

(** [c(message)]: the message in green. *)
Definition esc : ascii := Ascii.ascii_of_nat 27.
Definition c (message : string) : string :=
  String esc "[32m" +:+ message +:+ String esc "[0m".

(** ** Values and objects *)

(** A Number that is an integer is [VNum]. Every other Number is
    [VReal] of the text the engine prints for it ([1.5], [1e-7], [NaN],
    [-Infinity]), and negative zero is [VReal "-0"]: what the scripts do
    with a Number (test it, print it, compare it) is settled by that text. *)
Inductive value : Type :=
| VUndef
| VNull
| VBool (b : bool)
| VNum (n : Z)
| VReal (text : string)
| VStr (s : string)
| VArr (items : list value)
| VObj (fields : list (string * value)).

Definition jsobj (A : Type) : Type := list (string * A).

Module Obj.
Section Ops.
Context {A : Type}.

(** [o[k]] for an own property. *)
Fixpoint get (k : string) (o : jsobj A) : option A :=
  match o with
  | [] => None
  | (k', v) :: r => if Str.eqb k k' then Some v else get k r
  end.

Definition has (k : string) (o : jsobj A) : bool :=
  match get k o with Some _ => true | None => false end.

Fixpoint replace (k : string) (v : A) (o : jsobj A) : jsobj A :=
  match o with
  | [] => []
  | (k', v') :: r =>
      if Str.eqb k k' then (k', v) :: r else (k', v') :: replace k v r
  end.

(** A new array-index key goes before the first key that is not a smaller
    array index. *)
Fixpoint add_index (i : N) (k : string) (v : A) (o : jsobj A) : jsobj A :=
  match o with
  | [] => [(k, v)]
  | (k', v') :: r =>
      match Str.array_index k' with
      | Some j => if (j <? i)%N then (k', v') :: add_index i k v r
                  else (k, v) :: o
      | None => (k, v) :: o
      end
  end.

Definition add (k : string) (v : A) (o : jsobj A) : jsobj A :=
  match Str.array_index k with
  | Some i => add_index i k v o
  | None => o ++ [(k, v)]
  end.

(** [o[k] = v] *)
Definition set (k : string) (v : A) (o : jsobj A) : jsobj A :=
  if has k o then replace k v o else add k v o.

Definition keys (o : jsobj A) : list string := map fst o.
Definition values (o : jsobj A) : list A := map snd o.

(** Assigning every entry of [src] in turn, as [Object.assign] does. *)
Definition assign (dst src : jsobj A) : jsobj A :=
  fold_left (fun acc kv => set kv.1 kv.2 acc) src dst.

End Ops.
End Obj.

(** Names every plain object inherits from [Object.prototype]; a lookup
    [o[k]] with such a key finds a (truthy) member even when the object has
    no own property [k]. *)
Definition proto_names : list string :=
  ["constructor"; "__proto__"; "hasOwnProperty"; "isPrototypeOf";
   "propertyIsEnumerable"; "toLocaleString"; "toString"; "valueOf";
   "__defineGetter__"; "__defineSetter__"; "__lookupGetter__";
   "__lookupSetter__"].

Definition truthy (v : value) : bool :=
  match v with
  | VUndef | VNull | VBool false | VStr EmptyString => false
  | VNum n => negb (n =? 0)
  | VReal text => negb (Str.eqb text "NaN" || Str.eqb text "-0")
  | _ => true
  end.

(** [String(v)], also the property key [v] denotes. *)
Fixpoint to_string (v : value) : string :=
  match v with
  | VUndef => "undefined"
  | VNull => "null"
  | VBool true => "true"
  | VBool false => "false"
  | VNum n => Str.of_Z n
  | VReal text => if Str.eqb text "-0" then "0" else text
  | VStr s => s
  | VArr items =>
      Str.join ","
        ((fix each (l : list value) : list string :=
            match l with
            | [] => []
            | VUndef :: r | VNull :: r => EmptyString :: each r
            | x :: r => to_string x :: each r
            end) items)
  | VObj _ => "[object Object]"
  end.

(** Structural equality, used where the code compares by SameValueZero,
    or with [===] against a string; it is only ever decisive on primitives.
    Zero and negative zero are the same value. *)
Fixpoint value_eqb (a b : value) : bool :=
  match a, b with
  | VUndef, VUndef | VNull, VNull => true
  | VBool x, VBool y => bool_decide (x = y)
  | VNum x, VNum y => x =? y
  | VReal x, VReal y => Str.eqb x y
  | VNum x, VReal y | VReal y, VNum x => (x =? 0) && Str.eqb y "-0"
  | VStr x, VStr y => Str.eqb x y
  | VArr xs, VArr ys =>
      (fix go (l1 l2 : list value) : bool :=
         match l1, l2 with
         | [], [] => true
         | x :: r1, y :: r2 => value_eqb x y && go r1 r2
         | _, _ => false
         end) xs ys
  | VObj xs, VObj ys =>
      (fix go (l1 l2 : list (string * value)) : bool :=
         match l1, l2 with
         | [], [] => true
         | (k1, x) :: r1, (k2, y) :: r2 => Str.eqb k1 k2 && value_eqb x y && go r1 r2
         | _, _ => false
         end) xs ys
  | _, _ => false
  end.

(** ** Exceptions *)

Inductive exn : Type :=
| ValidationError (message : string)
| TypeError
| RangeError.

Inductive res (A : Type) : Type :=
| Ok (a : A)
| Throw (e : exn).
Arguments Ok {A} a.
Arguments Throw {A} e.

Definition res_bind {A B} (r : res A) (f : A -> res B) : res B :=
  match r with
  | Ok a => f a
  | Throw e => Throw e
  end.

Notation "'let?' x ':=' r 'in' k" := (res_bind r (fun x => k))
  (at level 10, x pattern, r at level 100, k at level 200).

(** [v.k] for the property names the scripts read ([code], [type], [ink],
    [keywords], [traits], [cycle], [rules], [args], [languages]): none of
    them is a member of a built-in prototype, so only a plain object can
    have one, and reading it off [null] or [undefined] throws. *)
Definition get_prop (v : value) (k : string) : res value :=
  match v with
  | VUndef | VNull => Throw TypeError
  | VObj fields => Ok (default VUndef (Obj.get k fields))
  | _ => Ok VUndef
  end.

(** [o[key]] is truthy, for an object [o] made by [{}] and filled by
    assignments [o[k] = v], as the collections are. Assigning a record under
    the key [__proto__] does not add a member: it makes the record the
    prototype of [o]. The entry of [o] under [__proto__] stands for that
    prototype, so a key that is no member of [o] is looked up in the record
    there, and then among the names of [Object.prototype]. *)
Definition resolves (key : value) (o : jsobj value) : bool :=
  let k := to_string key in
  match Obj.get k o with
  | Some v => truthy v
  | None =>
      match Obj.get "__proto__" o with
      | Some (VObj fields) =>
          match Obj.get k fields with
          | Some v => truthy v
          | None => bool_decide (k ∈ proto_names)
          end
      | _ => bool_decide (k ∈ proto_names)
      end
  end.

(** [_.values(o)] for such an object: the values of its members, without
    the prototype. *)
Definition members (o : jsobj value) : list value :=
  Obj.values (filter (fun kv : string * value => kv.1 ≠ "__proto__") o).

(** The own enumerable string-keyed properties lodash copies from a source. *)
Definition indexed (l : list value) : jsobj value :=
  imap (fun i v => (Str.of_N (N.of_nat i), v)) l.

Definition enumerable (v : value) : jsobj value :=
  match v with
  | VObj fields => fields
  | VArr items => indexed items
  | VStr s => indexed (map (fun ch => VStr (String ch EmptyString)) (Str.chars s))
  | _ => []
  end.

(** [_.extend({}, ...sources)] *)
Definition extend (sources : list value) : jsobj value :=
  fold_left (fun acc src => Obj.assign acc (enumerable src)) sources [].

(** [_.has(data, k)] for a top-level key. *)
Definition lodash_has (data : value) (k : string) : bool :=
  match data with
  | VObj fields => Obj.has k fields
  | _ => false
  end.

(** [_.includes(collection, x)] for a string [x]. *)
Definition lodash_includes (collection : value) (x : string) : bool :=
  match collection with
  | VArr items => existsb (value_eqb (VStr x)) items
  | VStr s => Str.includes x s
  | VObj fields => existsb (value_eqb (VStr x)) (Obj.values fields)
  | _ => false
  end.

(** [a || b] *)
Definition js_or (a b : value) : value := if truthy a then a else b.

(** The values a [for ... of] loop visits. *)
Definition iterate (v : value) : res (list value) :=
  match v with
  | VArr items => Ok items
  | VStr s => Ok (map (fun ch => VStr (String ch EmptyString)) (Str.chars s))
  | _ => Throw TypeError
  end.

(** ** The placeholder pattern [/\{(.+?)\}/ig] *)

Module Placeholder.

Definition line_terminator (ch : ascii) : bool :=
  bool_decide (ch = "010"%char) || bool_decide (ch = "013"%char).

(** The rest of the lazy group, up to the first closing brace. *)
Fixpoint close (s : list ascii) : option (list ascii) :=
  match s with
  | [] => None
  | ch :: r =>
      if bool_decide (ch = "}"%char) then Some []
      else if line_terminator ch then None
      else cons ch <$> close r
  end.

(** The group of a match that starts at the head of [s]. *)
Definition match_at (s : list ascii) : option (list ascii) :=
  match s with
  | open :: ch :: r =>
      if bool_decide (open = "{"%char) && negb (line_terminator ch)
      then cons ch <$> close r
      else None
  | _ => None
  end.

(** All the matches, left to right, not overlapping; [skip] characters are
    still covered by the previous match. *)
Fixpoint scan (skip : nat) (s : list ascii) : list (list ascii) :=
  match s with
  | [] => []
  | _ :: r =>
      match skip with
      | S k => scan k r
      | O =>
          match match_at s with
          | Some g => g :: scan (S (length g)) r
          | None => scan O r
          end
      end
  end.

(** The groups of all matches in [s]. *)
Definition groups (s : string) : list string :=
  map Str.of_chars (scan O (Str.chars s)).

(** [s.match(re)]: the matched substrings (never the groups). *)
Definition matches (s : string) : list string :=
  map (fun g => "{" +:+ g +:+ "}") (groups s).

(** [re.test(s)] on a fresh [re]. *)
Definition test (s : string) : bool :=
  match matches s with [] => false | _ => true end.

(** What [const [__, expr] = m] binds [expr] to: the second character. *)
Definition second (m : string) : value :=
  match m with
  | String _ (String ch _) => VStr (String ch EmptyString)
  | _ => VUndef
  end.

End Placeholder.

(** [customCheckKeyword(data)] *)
Definition customCheckKeyword (data : value) : res (list string) :=
  let? rules := get_prop data "rules" in
  if Placeholder.test (to_string rules) then
    match rules with
    | VStr s =>
        let? args := get_prop data "args" in
        let? code := get_prop data "code" in
        Ok (flat_map
              (fun m =>
                 let expr := Placeholder.second m in
                 if lodash_includes (js_or args (VArr [])) (to_string expr)
                 then []
                 else ["Expression {" +:+ c (to_string expr) +:+
                       "} is not defined as arg in keyword " +:+ c (to_string code)])
              (Placeholder.matches s))
    | _ => Throw TypeError
    end
  else Ok [].

(** [_.upperFirst(v)]'s conversion of its argument to a string. *)
Fixpoint lodash_toString (v : value) : string :=
  match v with
  | VUndef | VNull => EmptyString
  | VArr items =>
      Str.join ","
        ((fix each (l : list value) : list string :=
            match l with
            | [] => []
            | VUndef :: r => "undefined" :: each r
            | VNull :: r => "null" :: each r
            | x :: r => lodash_toString x :: each r
            end) items)
  | VReal text => text
  | _ => to_string v
  end.

(** ** Canonical form: [keysort] and [dump_options] *)

Definition nl : string := String "010"%char EmptyString.

Definition keysort : list string :=
  ["code"; "card"; "name"; "version"; "cost"; "ink"; "inkwell";
   "traits"; "strength"; "willpower"; "lore"; "text"; "keywords"; "set";
   "position"; "rarity"; "illustrator"; "flavor"; "args";
   "rules"; "cycle"; "size"; "languages"].

Definition includes_str (l : list string) (a : string) : bool :=
  existsb (Str.eqb a) l.

(** [_.indexOf(l, a)] *)
Fixpoint indexOf (l : list string) (a : string) : Z :=
  match l with
  | [] => -1
  | x :: r =>
      if Str.eqb a x then 0
      else let i := indexOf r a in if i <? 0 then -1 else i + 1
  end.

Record dump_options : Type := {
  lineWidth : Z;
  replacer : option (string -> value -> value);
  sortKeys : string -> string -> Z
}.

Definition sortKeys_keysort (a b : string) : Z :=
  if includes_str keysort a && includes_str keysort b
  then indexOf keysort a - indexOf keysort b
  else 0.

Definition replacer_text (key : string) (v : value) : value :=
  if includes_str ["text"; "flavor"; "rules"] key
  then VStr ("***" +:+ to_string v)
  else v.

Definition dump_options_schema : dump_options :=
  {| lineWidth := -1; replacer := None; sortKeys := sortKeys_keysort |}.

Definition dump_options_data : dump_options :=
  {| lineWidth := -1; replacer := Some replacer_text; sortKeys := sortKeys_keysort |}.

(** ** The external collaborators *)

(** One ajv error: [instancePath] and [message]. *)
Definition ajv_error : Type := string * string.

(** A compiled schema: [None] when the data is valid ([validator.errors] is
    null), the errors otherwise. *)
Definition validator : Type := value -> option (list ajv_error).

Record Env : Type := {
  (** [glob.sync("**/*.yml", {cwd})] *)
  glob_sync : string -> list string;
  (** [yaml.load(text)]; [None] when it throws *)
  yaml_load : string -> option value;
  (** [yaml.dump(data, options)]; [None] when it throws *)
  yaml_dump : value -> dump_options -> option string;
  (** [ajv.compile(schema)]; [None] when it throws *)
  ajv_compile : value -> option validator
}.

(** [plural(thing)] on the nine kinds of the data set. *)
Definition plural (thing : string) : string :=
  if Str.eqb thing "rarity" then "rarities" else thing +:+ "s".

(** [path.normalize] walks the segments of a path from left to right:
    empty segments and [.] are dropped, [..] removes the segment before it,
    and a [..] with nothing to remove is kept by a relative path and dropped
    by an absolute one. [kept] holds the segments kept so far, the last
    one first. *)
Fixpoint normalize_segments (allowAboveRoot : bool) (segments kept : list string)
    : list string :=
  match segments with
  | [] => rev kept
  | s :: rest =>
      if Str.eqb s EmptyString || Str.eqb s "." then
        normalize_segments allowAboveRoot rest kept
      else if Str.eqb s ".." then
        match kept with
        | last :: before =>
            if Str.eqb last ".." then normalize_segments allowAboveRoot rest (".." :: kept)
            else normalize_segments allowAboveRoot rest before
        | [] =>
            normalize_segments allowAboveRoot rest (if allowAboveRoot then [".."] else [])
        end
      else normalize_segments allowAboveRoot rest (s :: kept)
  end.

(** [path.normalize(path)] (POSIX) *)
Definition path_normalize (path : string) : string :=
  if Str.eqb path EmptyString then "."
  else
    let isAbsolute := Str.startsWith "/" path in
    let trailingSeparator := Str.endsWith "/"%char path in
    let p := Str.join "/" (normalize_segments (negb isAbsolute) (Str.split "/" path) []) in
    if Str.eqb p EmptyString then
      if isAbsolute then "/" else if trailingSeparator then "./" else "."
    else (if isAbsolute then "/" else EmptyString) +:+ p
         +:+ (if trailingSeparator then "/" else EmptyString).

(** [path.join(...segments)] (POSIX): the segments that are not empty,
    joined by [/] and normalised. *)
Definition path_join (segments : list string) : string :=
  path_normalize (Str.join "/" (filter (fun s => s ≠ EmptyString) segments)).

Fixpoint drop_prefix (p s : string) : option string :=
  match p, s with
  | EmptyString, _ => Some s
  | String a p', String b s' => if bool_decide (a = b) then drop_prefix p' s' else None
  | String _ _, EmptyString => None
  end.

(** What two lists of segments have left after their common start. *)
Fixpoint after_common (a b : list string) : list string * list string :=
  match a, b with
  | x :: a', y :: b' => if Str.eqb x y then after_common a' b' else (a, b)
  | _, _ => (a, b)
  end.

(** [path.relative(base, p)] (POSIX) for absolute paths, as those of a
    validator are: one [..] for every segment of [base] that is not on the
    way to [p], then the rest of [p]. *)
Definition path_relative (base p : string) : string :=
  let '(up, down) := after_common (normalize_segments false (Str.split "/" base) [])
                                  (normalize_segments false (Str.split "/" p) []) in
  Str.join "/" (map (fun _ => "..") up ++ down).

(** ** The file system *)

Inductive node : Type :=
| Dir (readable : bool)
| File (readable writable : bool) (text : string).

(** The paths that exist, each in its normal form, with its node. *)
Definition fsys : Type := list (string * node).

(** A path without the separators it ends with; the root stays. *)
Fixpoint without_trailing_separators (path : string) : string :=
  match path with
  | EmptyString => EmptyString
  | String a rest =>
      match without_trailing_separators rest with
      | EmptyString => if bool_decide (a = "/"%char) then EmptyString else String a EmptyString
      | rest' => String a rest'
      end
  end.

(** The node a path leads to: [None] when nothing is there. A path that
    ends with a separator leads to a directory or to nothing. *)
Definition node_at (fs : fsys) (path : string) : option node :=
  if Str.endsWith "/"%char path then
    let dir := without_trailing_separators path in
    match Obj.get (if Str.eqb dir EmptyString then "/" else dir) fs with
    | Some (Dir readable) => Some (Dir readable)
    | _ => None
    end
  else Obj.get path fs.

(** [fs.readFileSync(path, "utf8")]; [None] when it throws. *)
Definition readFileSync (fs : fsys) (path : string) : option string :=
  match node_at fs path with
  | Some (File true _ text) => Some text
  | _ => None
  end.

(** [fs.writeFileSync(path, data)] on an existing file; [None] when it throws. *)
Definition writeFileSync (fs : fsys) (path data : string) : option fsys :=
  match node_at fs path with
  | Some (File r true _) => Some (Obj.replace path (File r true data) fs)
  | _ => None
  end.

(** [checkDirAccess(path)] *)
Definition checkDirAccess (fs : fsys) (path : string) : res unit :=
  match node_at fs path with
  | Some (Dir true) => Ok tt
  | Some (Dir false) => Throw (ValidationError (path +:+ " is not a readable directory"))
  | _ => Throw (ValidationError (path +:+ " is not a valid path"))
  end.

(** [testFileAccess(path)] *)
Definition testFileAccess (fs : fsys) (path : string) : option string :=
  match node_at fs path with
  | Some (File true _ _) => None
  | Some (File false _ _) => Some (path +:+ " is not a readable file")
  | _ => Some (path +:+ " does not exists")
  end.

(** [checkFileAccess(path)] *)
Definition checkFileAccess (fs : fsys) (path : string) : res unit :=
  match testFileAccess fs path with
  | Some result => if truthy (VStr result) then Throw (ValidationError result) else Ok tt
  | None => Ok tt
  end.

(** ** The validator objects *)

Record Errors : Type := mkErrors {
  formatting : N;
  validation : N;
  nonFixedFormatting : N
}.

Definition no_errors : Errors := mkErrors 0 0 0.

(** The fields of a validator (and of its logger) that are set by the
    constructors and never assigned again. [locale] is [Some] for an
    [I18NValidator]. *)
Record Validator : Type := mkValidator {
  basePath : string;
  dataPath : string;
  schemaPath : string;
  verbose : Z;
  indent : nat;
  prefix : string;
  fixFormatting : bool;
  locale : option string
}.

(** What a run mutates: the logger's [togglePrefix], [this.errors],
    the object [this.collections] refers to, the files, the output. *)
Record vstate : Type := mkState {
  togglePrefix : bool;
  errors : Errors;
  collections : jsobj (jsobj value);
  fs : fsys;
  stdout : list string
}.

Definition set_errors (e : Errors) (st : vstate) : vstate :=
  mkState (togglePrefix st) e (collections st) (fs st) (stdout st).
Definition set_collections (cs : jsobj (jsobj value)) (st : vstate) : vstate :=
  mkState (togglePrefix st) (errors st) cs (fs st) (stdout st).
Definition set_fs (f : fsys) (st : vstate) : vstate :=
  mkState (togglePrefix st) (errors st) (collections st) f (stdout st).

Definition incr_formatting (st : vstate) : vstate :=
  let e := errors st in
  set_errors (mkErrors (formatting e + 1) (validation e) (nonFixedFormatting e)) st.
Definition incr_validation (st : vstate) : vstate :=
  let e := errors st in
  set_errors (mkErrors (formatting e) (validation e + 1) (nonFixedFormatting e)) st.
Definition incr_nonFixedFormatting (st : vstate) : vstate :=
  let e := errors st in
  set_errors (mkErrors (formatting e) (validation e) (nonFixedFormatting e + 1)) st.

(** [Logger.log(text, minimumVerbosity)]; every [process.stdout.write]
    appends one chunk. *)
Definition log (V : Validator) (text : string) (minimumVerbosity : Z) (st : vstate) : vstate :=
  if verbose V >=? minimumVerbosity then
    mkState (Str.includes nl text) (errors st) (collections st) (fs st)
      (stdout st
       ++ (if togglePrefix st then [Str.spaces (indent V); prefix V] else [])
       ++ [text])
  else st.

Arguments log : simpl never.

(** The [_.reduce] of [formatYaml]: an empty line goes before every line
    that starts an item, the first line apart. *)
Definition separate_items (dumped : list string) : list string :=
  fold_left
    (fun lines line =>
       if Str.startsWith "-" line && bool_decide (lines ≠ [])
       then lines ++ [EmptyString; line]
       else lines ++ [line])
    dumped [].

Section Run.
Context (E : Env).

(** [formatYaml(data, options)]; [None] when [yaml.dump] throws. *)
Definition formatYaml (data : value) (options : dump_options) : option string :=
  match yaml_dump E data options with
  | Some text => Some (Str.join nl (separate_items (Str.split "010"%char text)))
  | None => None
  end.

(** The dump profile [getDataFromFile] selects for a path:
    [_.includes(filepath, 'schema') ? dump_options.schema : dump_options.data]. *)
Definition profile (filepath : string) : dump_options :=
  if Str.includes "schema" filepath then dump_options_schema else dump_options_data.

(** The [catch] branch of [getDataFromFile]. *)
Definition not_yaml (V : Validator) (filepath : string) (st : vstate) : value * vstate :=
  (VArr [],
   incr_validation (log V (filepath +:+ ": File is not correctly formatted YAML" +:+ nl) 0 st)).

(** [getDataFromFile(filepath)] *)
Definition getDataFromFile (V : Validator) (filepath : string) (st : vstate) : value * vstate :=
  match readFileSync (fs st) filepath with
  | None => not_yaml V filepath st
  | Some data =>
      match yaml_load E data with
      | None => not_yaml V filepath st
      | Some json =>
          let rel := path_relative (basePath V) filepath in
          let st1 := log V (rel +:+ ": Checking YAML formatting..." +:+ nl) 4 st in
          match formatYaml json (profile filepath) with
          | None => not_yaml V filepath st1
          | Some formattedData =>
              if Str.eqb formattedData data then (json, st1)
              else
                let st2 := incr_formatting
                             (log V (rel +:+ ": File is not correctly formatted YAML" +:+ nl) 0 st1) in
                if fixFormatting V && truthy (VStr formattedData)
                   && (0 <? Z.of_nat (String.length formattedData))
                then
                  let st3 := log V (rel +:+ ": Fixing YAML formatting..." +:+ nl) 0 st2 in
                  match writeFileSync (fs st3) filepath formattedData with
                  | Some fs' => (json, set_fs fs' st3)
                  | None =>
                      (json, log V (rel +:+ ": Cannot open file to write." +:+ nl) 0
                               (incr_nonFixedFormatting st3))
                  end
                else (json, incr_nonFixedFormatting st2)
          end
      end
  end.

(** The body of the inner loop of [loadThingsData]: what is pushed for
    [item] read from [file]. *)
Definition attach (info : option (string -> value)) (file : string) (item : value) : value :=
  match info with
  | Some pathInfo => VObj (extend [item; pathInfo file])
  | None => item
  end.

(** [if(!_.isArray(list)) list = [list]] *)
Definition as_list (json : value) : list value :=
  match json with
  | VArr items => items
  | _ => [json]
  end.

Fixpoint loadThingsData_files (V : Validator) (thingPath : string)
    (info : option (string -> value)) (files : list string)
    (collection : list value) (st : vstate) : list value * vstate :=
  match files with
  | [] => (collection, st)
  | file :: rest =>
      let '(json, st1) := getDataFromFile V (path_join [thingPath; file]) st in
      loadThingsData_files V thingPath info rest
        (collection ++ map (attach info file) (as_list json)) st1
  end.

(** [loadThingsData(thingPath, info)] *)
Definition loadThingsData (V : Validator) (thingPath : string)
    (info : option (string -> value)) (st : vstate) : list value * vstate :=
  loadThingsData_files V thingPath info (glob_sync E thingPath) [] st.

(** [checkJsonSchema(data, schemaPath)] *)
Definition checkJsonSchema (V : Validator) (data : value) (schemaPath' : string)
    (st : vstate) : option validator * vstate :=
  match ajv_compile E data with
  | Some v => (Some v, st)
  | None =>
      (None, incr_validation
               (log V (schemaPath' +:+ ": schema file is not a valid JSON Schema" +:+ nl) 0 st))
  end.

End Run.

(** *** Business rules *)

(** [this.collections[name][key]] is truthy; reading a member of a
    collection that was never registered throws. *)
Definition lookup_in (cs : jsobj (jsobj value)) (name : string) (key : value) : res bool :=
  match Obj.get name cs with
  | Some o => Ok (resolves key o)
  | None => Throw TypeError
  end.

(** [customCheckSet(data)] *)
Definition customCheckSet (cs : jsobj (jsobj value)) (data : value) : res (list string) :=
  let? cycle := get_prop data "cycle" in
  let? found := (if truthy cycle then lookup_in cs "cycle" cycle else Ok true) in
  let? code := get_prop data "code" in
  Ok (if truthy cycle && negb found
      then ["Cycle code '" +:+ to_string cycle +:+ "' does not exists in set '"
            +:+ c (to_string code) +:+ "'"]
      else []).

(** [customCheckCardCharacter(data)] *)
Definition customCheckCardCharacter (data : value) : res (list string) :=
  let? code := get_prop data "code" in
  Ok (flat_map
        (fun required =>
           if lodash_has data required then []
           else ["Character card code " +:+ c (to_string code)
                 +:+ " must have attribute " +:+ required])
        ["version"; "strength"; "willpower"; "lore"]).

(** One [for ... of] loop of [customCheckCard] over the codes of [field]. *)
Fixpoint check_codes (cs : jsobj (jsobj value)) (name label : string) (code : value)
    (codes : list value) : res (list string) :=
  match codes with
  | [] => Ok []
  | k :: rest =>
      let? found := lookup_in cs name k in
      let? more := check_codes cs name label code rest in
      Ok ((if found then []
           else [label +:+ " code '" +:+ to_string k +:+ "' does not exists in set '"
                 +:+ c (to_string code) +:+ "'"]) ++ more)
  end.

(** [customCheckCard(data)]. With an empty [type] the method name the
    code builds is [customCheckCard] itself: the call never returns and the
    engine throws a [RangeError]. *)
Definition customCheckCard (cs : jsobj (jsobj value)) (data : value) : res (list string) :=
  let? type := get_prop data "type" in
  let? code := get_prop data "code" in
  let? type_found := (if truthy type then lookup_in cs "type" type else Ok true) in
  let? ink := get_prop data "ink" in
  let? ink_found := (if truthy ink then lookup_in cs "ink" ink else Ok true) in
  let? keywords := get_prop data "keywords" in
  let? keyword_codes := iterate (js_or keywords (VArr [])) in
  let? keyword_errors := check_codes cs "keyword" "Keyword" code keyword_codes in
  let? traits := get_prop data "traits" in
  let? trait_codes := iterate (js_or traits (VArr [])) in
  let? trait_errors := check_codes cs "trait" "Trait" code trait_codes in
  let validations :=
    (if truthy type && negb type_found
     then ["Type code '" +:+ to_string type +:+ "' does not exists in set '"
           +:+ c (to_string code) +:+ "'"] else [])
    ++ (if truthy ink && negb ink_found
        then ["Ink code '" +:+ to_string ink +:+ "' does not exists in set '"
              +:+ c (to_string code) +:+ "'"] else [])
    ++ keyword_errors ++ trait_errors in
  let suffix := Str.upperFirst (lodash_toString type) in
  if Str.eqb suffix "Character" then
    let? more := customCheckCardCharacter data in Ok (validations ++ more)
  else if Str.eqb suffix EmptyString then Throw RangeError
  else Ok validations.

(** [ValidatorBase.customCheck(thing, thingData)]: the method named
    after the kind, for the kinds of the [things] table. *)
Definition customCheck_base (cs : jsobj (jsobj value)) (thing : string) (thingData : value)
    : res (list string) :=
  let name := Str.upperFirst thing in
  if Str.eqb name "Keyword" then customCheckKeyword thingData
  else if Str.eqb name "Set" then customCheckSet cs thingData
  else if Str.eqb name "Card" then customCheckCard cs thingData
  else if Str.eqb name "CardCharacter" then customCheckCardCharacter thingData
  else Ok [].

(** [I18NValidator.customCheck(thing, thingData)] *)
Definition customCheck_i18n (cs : jsobj (jsobj value)) (locale' : string)
    (thing : string) (thingData : value) : res (list string) :=
  let? code := get_prop thingData "code" in
  let? found := (if truthy code then lookup_in cs thing code else Ok true) in
  Ok (if truthy code && negb found
      then [c thing +:+ " code '" +:+ to_string code +:+ "' does not exists in '"
            +:+ locale' +:+ "' " +:+ thing +:+ " translations"]
      else []).

(** [this.customCheck(thing, thingData)], by the class of [this]. *)
Definition customCheck (V : Validator) (cs : jsobj (jsobj value)) (thing : string)
    (thingData : value) : res (list string) :=
  match locale V with
  | Some l => customCheck_i18n cs l thing thingData
  | None => customCheck_base cs thing thingData
  end.

(** *** Validation of one collection *)

Definition validation_error_header (thing : string) (code : value) : string :=
  "Validation error in " +:+ c thing +:+ ": (code: " +:+ to_string code +:+ ")" +:+ nl.

(** The lines that report the violations of one record. *)
Definition custom_report (customErrors : list string) : string :=
  Str.join nl (map (fun e => "  - " +:+ e) customErrors) +:+ nl.

Definition schema_report (thing : string) (errs : list ajv_error) : string :=
  Str.join nl
    (map (fun e : ajv_error =>
            "  - " +:+ c (thing +:+ Str.replaceAll "/" "." e.1) +:+ " " +:+ e.2) errs) +:+ nl.

(** [validateSchema(thing, thingData, validator)] *)
Definition validateSchema (V : Validator) (thing : string) (thingData : value)
    (check : validator) (st : vstate) : res (bool * vstate) :=
  let? code := get_prop thingData "code" in
  let st1 := log V ("Validating " +:+ c thing +:+ " " +:+ to_string code +:+ "... ") 2 st in
  match check thingData with
  | None =>
      let? customErrors := customCheck V (collections st1) thing thingData in
      match customErrors with
      | [] => Ok (true, log V (" OK" +:+ nl) 2 st1)
      | _ =>
          let st2 := log V (" ERROR" +:+ nl) 2 st1 in
          let st3 := log V (validation_error_header thing code) 0 st2 in
          let st4 := incr_validation st3 in
          Ok (true, log V (custom_report customErrors) 0 st4)
      end
  | Some errs =>
      let st2 := log V (" ERROR" +:+ nl) 2 st1 in
      let st3 := log V (validation_error_header thing code) 0 st2 in
      let st4 := incr_validation st3 in
      Ok (false, log V (schema_report thing errs) 0 st4)
  end.

(** The loop of [validateCollection]. *)
Fixpoint validateCollection_items (V : Validator) (thing : string) (check : validator)
    (thingsData : list value) (retVal : bool) (st : vstate) : res (bool * vstate) :=
  match thingsData with
  | [] => Ok (retVal, st)
  | thingData :: rest =>
      let? (valid, st1) := validateSchema V thing thingData check st in
      validateCollection_items V thing check rest (valid && retVal) st1
  end.

Section Run.
Context (E : Env).

(** [validateCollection(thing, thingsData)] *)
Definition validateCollection (V : Validator) (thing : string) (thingsData : list value)
    (st : vstate) : res (bool * vstate) :=
  let st1 := log V ("Validating collection of " +:+ c (plural thing) +:+ nl) 1 st in
  let schemaPath' := path_join [schemaPath V; thing +:+ "_schema.yml"] in
  let? _ := checkFileAccess (fs st1) schemaPath' in
  let '(schemaData, st2) := getDataFromFile E V schemaPath' st1 in
  if negb (truthy schemaData) then Ok (false, st2)
  else
    match checkJsonSchema E V schemaData schemaPath' st2 with
    | (None, st3) => Ok (false, st3)
    | (Some check, st3) => validateCollection_items V thing check thingsData true st3
    end.

(** [loadCollection(thing, info)]; [None] is [undefined]. *)
Definition loadCollection (V : Validator) (thing : string) (info : option (string -> value))
    (st : vstate) : res (option (list value) * vstate) :=
  let st1 := log V ("Loading collection of " +:+ c (plural thing) +:+ "..." +:+ nl) 1 st in
  let thingPath := path_join [dataPath V; plural thing] in
  let? _ := checkDirAccess (fs st1) thingPath in
  let '(thingsData, st2) := loadThingsData E V thingPath info st1 in
  let? (ok, st3) := validateCollection V thing thingsData st2 in
  if ok then Ok (Some thingsData, st3) else Ok (None, st3).

End Run.

(** The loop of [loadCollections]. A record whose code is [__proto__]
    becomes the prototype of the collection, which is what the entry under
    that key stands for (see [resolves]). *)
Fixpoint loadCollections_items (collection : list value) (o : jsobj value) : res (jsobj value) :=
  match collection with
  | [] => Ok o
  | item :: rest =>
      let? code := get_prop item "code" in
      loadCollections_items rest (Obj.set (to_string code) item o)
  end.

(** [loadCollections(thing, collection)] *)
Definition loadCollections (thing : string) (collection : list value)
    (cs : jsobj (jsobj value)) : res (jsobj (jsobj value)) :=
  let o := default [] (Obj.get thing cs) in
  let? o' := loadCollections_items collection o in
  Ok (Obj.set thing o' cs).

(** The [things] table of [validate], in the order [Object.entries]
    lists it. *)
Definition card_pathInfo (path : string) : value :=
  VObj [("type", VStr (first_segment path))].

Definition things : list (string * option (string -> value)) :=
  [("ink", None); ("trait", None); ("keyword", None); ("cycle", None);
   ("rarity", None); ("set", None); ("type", None);
   ("card", Some card_pathInfo); ("printing", None)].

Section Run.
Context (E : Env).

(** The loop of [ValidatorBase.validate]. *)
Fixpoint validate_things (V : Validator) (l : list (string * option (string -> value)))
    (st : vstate) : res vstate :=
  match l with
  | [] => Ok st
  | (thing, info) :: rest =>
      let? (collection, st1) := loadCollection E V thing info st in
      let? st2 :=
        match collection with
        | Some items =>
            let? cs := loadCollections thing items (collections st1) in
            Ok (set_collections cs st1)
        | None => Ok st1
        end in
      validate_things V rest st2
  end.

(** [ValidatorBase.validate()] *)
Definition ValidatorBase_validate (V : Validator) (st : vstate) : res vstate :=
  let? _ := checkDirAccess (fs st) (dataPath V) in
  let? _ := checkDirAccess (fs st) (schemaPath V) in
  validate_things V things (log V ("Validating data..." +:+ nl) 0 st).

End Run.

(** [new ValidatorBase(basePath, logger, fixFormatting)], with the
    fields of [logger]. *)
Definition new_ValidatorBase (basePath' : string) (verbose' : Z) (indent' : nat)
    (prefix' : string) (fixFormatting' : bool) : Validator :=
  mkValidator basePath' (path_join [basePath'; "data"]) (path_join [basePath'; "schema"])
    verbose' indent' prefix' fixFormatting' None.

(** [new I18NValidator(collections, locale, basePath, logger, formatting)];
    [path.join] throws on a locale that is not a string. The object
    [collections] is stored as it is: the state the new validator runs on
    shares it. *)
Definition new_I18NValidator (locale' : value) (basePath' : string) (verbose' : Z)
    (indent' : nat) (fixFormatting' : bool) : res Validator :=
  match locale' with
  | VStr l =>
      let V := new_ValidatorBase basePath' verbose' indent' ("[" +:+ l +:+ "] ") fixFormatting' in
      Ok (mkValidator (basePath V) (path_join [dataPath V; "translations"; l])
            (path_join [schemaPath V; "translations"])
            (verbose V) (indent V) (prefix V) (fixFormatting V) (Some l))
  | _ => Throw TypeError
  end.

(** [_.uniq(l)] *)
Fixpoint uniq (seen l : list value) : list value :=
  match l with
  | [] => []
  | x :: r => if existsb (value_eqb x) seen then uniq seen r else x :: uniq (x :: seen) r
  end.

(** [_.flatten(l)]: one level. *)
Definition flatten (l : list value) : list value :=
  flat_map (fun v => match v with VArr items => items | _ => [v] end) l.

Fixpoint map_res {A B} (f : A -> res B) (l : list A) : res (list B) :=
  match l with
  | [] => Ok []
  | x :: r => let? y := f x in let? ys := map_res f r in Ok (y :: ys)
  end.

(** The [locales] of [validateLocales]. *)
Definition locales_of (cs : jsobj (jsobj value)) : res (list value) :=
  let? langs := map_res (fun s => get_prop s "languages")
                  (members (default [] (Obj.get "set" cs))) in
  Ok (filter (fun lang => value_eqb lang (VStr "en") = false) (uniq [] (flatten langs))).

Section Run.
Context (E : Env).

(** The loop of [validateLocales]. The result lists [i18nValidator.errors]
    of every validator it ran, in order (the script returns nothing). *)
Fixpoint validateLocales_loop (V : Validator) (locales : list value) (st : vstate)
    : res (list Errors * vstate) :=
  match locales with
  | [] => Ok ([], st)
  | l :: rest =>
      let? Vi := new_I18NValidator l (basePath V) (verbose V) (indent V + 4) (fixFormatting V) in
      let? sti := ValidatorBase_validate E Vi
                    (mkState true no_errors (collections st) (fs st) (stdout st)) in
      let e := errors st in
      let ei := errors sti in
      let st' :=
        mkState (togglePrefix st)
          (mkErrors (formatting e + formatting ei) (validation e + validation ei)
             (nonFixedFormatting e + nonFixedFormatting ei))
          (collections sti) (fs sti) (stdout sti) in
      let? (more, st'') := validateLocales_loop V rest st' in
      Ok (ei :: more, st'')
  end.

(** [validateLocales()] *)
Definition validateLocales (V : Validator) (st : vstate) : res (list Errors * vstate) :=
  let? locales := locales_of (collections st) in
  validateLocales_loop V locales st.

Definition skip_notice : string :=
  "There were errors in main files. Validation of translated files skipped." +:+ nl.

(** [Validator.validate()] *)
Definition Validator_validate (V : Validator) (st : vstate) : res (list Errors * vstate) :=
  let? st1 := ValidatorBase_validate E V st in
  if (validation (errors st1) =? 0)%N then validateLocales V st1
  else Ok ([], log V skip_notice 0 st1).

(** [showResults()]: the value left in [process.exitCode]. *)
Definition showResults (V : Validator) (st : vstate) : Z * vstate :=
  let e := errors st in
  (if (formatting e + validation e =? 0)%N then 0 else 1,
   log V ("Found " +:+ c (Str.of_N (formatting e)) +:+ " formatting and "
          +:+ c (Str.of_N (validation e)) +:+ " validation errors" +:+ nl) 0 st).

(** The validator and the state [main] starts from. *)
Definition main_validator (basePath' : string) : Validator :=
  new_ValidatorBase basePath' 0 0 EmptyString true.

Definition initial_state (files : fsys) : vstate :=
  mkState true no_errors [] files [].

(** [main()]: the exit code it sets, or the exception that escapes it. *)
Definition main (basePath' : string) (files : fsys) : res (Z * vstate) :=
  let V := main_validator basePath' in
  let? (_, st) := Validator_validate V (initial_state files) in
  Ok (showResults V st).

End Run.

(** The exit code of the process: [process.exitCode] as [showResults]
    set it when [main] returns, and 1, the code of an uncaught exception,
    when one escapes [main] (nothing in the script catches it, and
    [showResults] is not reached). *)
Definition exit_code (outcome : res (Z * vstate)) : Z :=
  match outcome with
  | Ok (code, _) => code
  | Throw _ => 1
  end.

(** ** The locale merge tool ([update_locales.js]) *)

Module UpdateLocales.

(** The elements [_.map(collection, f)] visits. *)
Definition lodash_map_items (collection : value) : list value :=
  match collection with
  | VArr items => items
  | VObj fields => Obj.values fields
  | VStr s => map (fun ch => VStr (String ch EmptyString)) (Str.chars s)
  | _ => []
  end.

(** [_.pick(p, paths)] for top-level names. *)
Definition pick (paths : list string) (p : value) : value :=
  match p with
  | VObj fields =>
      VObj (fold_left
              (fun acc k =>
                 match Obj.get k fields with
                 | Some v => Obj.set k v acc
                 | None => acc
                 end) paths [])
  | _ => VObj []
  end.

(** [loadPrintings(root)], from the files glob lists and what [yaml.load]
    returns for each. *)
Definition loadPrintings (parsed : list (string * value)) : jsobj (list value) :=
  fold_left
    (fun result fc =>
       Obj.set fc.1 (map (pick ["code"; "flavor"]) (lodash_map_items fc.2)) result)
    parsed [].

(** [codeFn]; [p] is an object, the result of [_.pick]. *)
Definition codeFn (p : value) : string :=
  match get_prop p "code" with
  | Ok code => to_string code
  | Throw _ => EmptyString
  end.

(** [_.keyBy(list, codeFn)] on a list of objects. *)
Definition keyBy (l : list value) : jsobj value :=
  fold_left (fun result p => Obj.set (codeFn p) p result) l [].

(** [array[i]], which is [undefined] beyond the end. *)
Definition element (i : N) (items : list value) : value :=
  nth (N.to_nat i) items VUndef.

(** [array[i] = v]: beyond the end the array grows, and the elements in
    between read as [undefined]. *)
Definition set_element (i : N) (v : value) (items : list value) : list value :=
  if (N.to_nat i <? length items)%nat then <[N.to_nat i := v]> items
  else items ++ replicate (N.to_nat i - length items) VUndef ++ [v].

(** What [_.merge] leaves in a slot that held [dst] once [src] is merged
    into it. An array is merged element by element into the array already
    there, or into a fresh one. An object is merged member by member into
    what is already there when that is an object or an array, or into a
    fresh object. Any other defined value replaces the old one.

    On an array that meets an object, the members whose keys are array
    indices become its elements. lodash assigns the other members to the
    array as well; an array of [value] has elements only, and neither
    [yaml.dump] nor [_.isEqual] nor the conversion to a string reads
    anything else of an array, so they are left out. Two things are outside
    this definition: a member named [length] assigned to an array, and an
    array-like object (one with a numeric [length]) that meets an array. *)
Fixpoint merge_into (dst src : value) : value :=
  match src with
  | VObj sfields =>
      match dst with
      | VArr ditems =>
          VArr ((fix members (l : list (string * value)) (acc : list value) : list value :=
                   match l with
                   | [] => acc
                   | (k, sv) :: r =>
                       members r
                         (match Str.array_index k with
                          | Some i => set_element i (merge_into (element i acc) sv) acc
                          | None => acc
                          end)
                   end) sfields ditems)
      | _ =>
          VObj ((fix members (l : list (string * value)) (acc : jsobj value) : jsobj value :=
                   match l with
                   | [] => acc
                   | (k, sv) :: r =>
                       members r
                         (Obj.set k (merge_into (default VUndef (Obj.get k acc)) sv) acc)
                   end) sfields (match dst with VObj d => d | _ => [] end))
      end
  | VArr sitems =>
      VArr ((fix elements (l : list value) (ds : list value) : list value :=
               match l with
               | [] => ds
               | sv :: r =>
                   match ds with
                   | [] => merge_into VUndef sv :: elements r []
                   | dv :: dr => merge_into dv sv :: elements r dr
                   end
               end) sitems (match dst with VArr d => d | _ => [] end))
  | VUndef => dst
  | _ => src
  end.

(** [_.merge({}, a, b)] *)
Definition merge (a b : jsobj value) : jsobj value :=
  match merge_into (merge_into (VObj []) (VObj a)) (VObj b) with
  | VObj fields => fields
  | _ => []
  end.

(** The order [_.sortBy] compares two plain objects in: [a > b] and
    [a < b] both compare the strings the objects convert to. *)
Definition compareAscending (a b : value) : comparison :=
  String.compare (to_string a) (to_string b).

Fixpoint sort_insert (x : value) (sorted : list value) : list value :=
  match sorted with
  | [] => [x]
  | y :: r =>
      match compareAscending x y with
      | Lt => x :: sorted
      | _ => y :: sort_insert x r
      end
  end.

(** [_.sortBy(l)]: no iteratee is passed, the sort is stable. *)
Definition sortBy (l : list value) : list value :=
  fold_left (fun sorted x => sort_insert x sorted) l [].

(** [_.union(a, b)] *)
Fixpoint union_keys (seen l : list string) : list string :=
  match l with
  | [] => []
  | k :: r => if includes_str seen k then union_keys seen r
              else k :: union_keys (k :: seen) r
  end.

(** [sortFn] of [mergeLists]: the [position] of the base printing with
    the code of [p]. It is declared and passed to nothing. *)
Definition sortFn (base : list value) (p : value) : res value :=
  match List.find (fun dp => Str.eqb (codeFn dp) (codeFn p)) base with
  | Some dp => get_prop dp "position"
  | None => Throw TypeError
  end.

(** [mergeLists(defaultLocale, locale)] *)
Definition mergeLists (defaultLocale locale : jsobj (list value)) : jsobj (list value) :=
  fold_left
    (fun result file =>
       Obj.set file
         (sortBy (Obj.values
                    (merge (keyBy (default [] (Obj.get file defaultLocale)))
                           (keyBy (default [] (Obj.get file locale))))))
         result)
    (union_keys [] (Obj.keys defaultLocale ++ Obj.keys locale)) [].

(** [loadThings(root)], from the files glob lists for the kinds in turn
    and what [yaml.load] returns for each. *)
Definition loadThings (parsed : list (string * value)) : jsobj value :=
  fold_left
    (fun result fc =>
       Obj.set fc.1 (pick ["code"; "name"; "text"; "version"; "rules"] fc.2) result)
    parsed [].

(** The members of one source of [_.merge] in [mergeData]: those of the
    record [_.pick] built for the file, none when the file is not in the
    map ([undefined] sources are skipped). *)
Definition fields_of (source : option value) : jsobj value :=
  match source with
  | Some (VObj fields) => fields
  | _ => []
  end.

(** [mergeData(defaultLocale, locale)] *)
Definition mergeData (defaultLocale locale : jsobj value) : jsobj value :=
  fold_left
    (fun result file =>
       Obj.set file
         (VObj (merge (fields_of (Obj.get file defaultLocale))
                      (fields_of (Obj.get file locale))))
         result)
    (union_keys [] (Obj.keys defaultLocale ++ Obj.keys locale)) [].

End UpdateLocales.


(** ** The card schema ([schema/card_schema.yml])

    The constraints of the file, read as JSON Schema: the type of each
    property with its [minLength], [minimum], [minItems] and [uniqueItems],
    the [required] list, and [additionalProperties: false]. *)

Module CardSchema.

(** [type: string, minLength: 1] *)
Definition nonempty_string (v : value) : bool :=
  match v with
  | VStr s => negb (Str.eqb s EmptyString)
  | _ => false
  end.

(** [type: integer, minimum: 0] *)
Definition natural (v : value) : bool :=
  match v with
  | VNum n => 0 <=? n
  | VReal text => Str.eqb text "-0"
  | _ => false
  end.

(** [type: boolean] *)
Definition boolean (v : value) : bool :=
  match v with
  | VBool _ => true
  | _ => false
  end.

Fixpoint unique (items : list value) : bool :=
  match items with
  | [] => true
  | x :: r => negb (existsb (value_eqb x) r) && unique r
  end.

(** [type: array] of non-empty strings, [minItems: 1], [uniqueItems: true] *)
Definition string_list (v : value) : bool :=
  match v with
  | VArr items =>
      forallb nonempty_string items && (1 <=? Z.of_nat (length items)) && unique items
  | _ => false
  end.

Definition properties : list (string * (value -> bool)) :=
  [("code", nonempty_string); ("name", nonempty_string); ("version", nonempty_string);
   ("cost", natural); ("type", nonempty_string); ("ink", nonempty_string);
   ("inkwell", boolean); ("traits", string_list); ("strength", natural);
   ("willpower", natural); ("lore", natural); ("text", nonempty_string);
   ("keywords", string_list)].

Definition required : list string := ["code"; "name"; "type"; "ink"; "inkwell"].

(** A value the schema accepts: an object, every member of which is a
    declared property of the right form, with all the required ones. *)
Definition valid (data : value) : bool :=
  match data with
  | VObj fields =>
      forallb (fun kv : string * value =>
                 match Obj.get kv.1 properties with
                 | Some accepts => accepts kv.2
                 | None => false
                 end) fields
      && forallb (fun k => Obj.has k fields) required
  | _ => false
  end.

End CardSchema.

(** ** Specification-side definitions *)

(** The key [loadCollections] files [item] under: [item.code] as a
    property key. *)
Definition code_key (item : value) : string :=
  match get_prop item "code" with
  | Ok code => to_string code
  | Throw _ => EmptyString
  end.

(** Registering a loaded list keeps every record. *)
Definition no_record_lost : Prop :=
  forall thing collection cs cs',
    loadCollections thing collection cs = Ok cs' ->
    forall item, item ∈ collection ->
    exists o, Obj.get thing cs' = Some o /\ item ∈ Obj.values o.

(** The first character of a placeholder expression, as a string. *)
Definition first_character (g : string) : string :=
  match g with
  | String ch _ => String ch EmptyString
  | EmptyString => EmptyString
  end.

(** The violations of one record: those of the schema, or else those of
    the business rules. *)
Inductive violations : Type :=
| Passes
| SchemaViolations (errs : list ajv_error)
| RuleViolations (first : string) (others : list string).

Definition violations_of (V : Validator) (cs : jsobj (jsobj value)) (thing : string)
    (thingData : value) (check : validator) : res violations :=
  match check thingData with
  | Some errs => Ok (SchemaViolations errs)
  | None =>
      let? customErrors := customCheck V cs thing thingData in
      match customErrors with
      | [] => Ok Passes
      | e :: r => Ok (RuleViolations e r)
      end
  end.

(** The total of one counter over the locale passes. *)
Definition total (counter : Errors -> N) (passes : list Errors) : N :=
  foldr (fun e acc => (counter e + acc)%N) 0%N passes.

Section Run.
Context (E : Env).

(** The files [loadThingsData] reads, each with the value
    [getDataFromFile] returned for it. *)
Fixpoint files_read (V : Validator) (thingPath : string) (files : list string)
    (st : vstate) : list (string * value) :=
  match files with
  | [] => []
  | file :: rest =>
      let '(json, st1) := getDataFromFile E V (path_join [thingPath; file]) st in
      (file, json) :: files_read V thingPath rest st1
  end.

(** [loadCollection] up to the call of [ajv.compile]: the data files
    are loaded and audited, then the schema file is; the result is the
    parsed schema and the state at that point. *)
Definition before_compile (V : Validator) (thing : string)
    (info : option (string -> value)) (st : vstate) : res (value * vstate) :=
  let st1 := log V ("Loading collection of " +:+ c (plural thing) +:+ "..." +:+ nl) 1 st in
  let? _ := checkDirAccess (fs st1) (path_join [dataPath V; plural thing]) in
  let st2 := (loadThingsData E V (path_join [dataPath V; plural thing]) info st1).2 in
  let st3 := log V ("Validating collection of " +:+ c (plural thing) +:+ nl) 1 st2 in
  let? _ := checkFileAccess (fs st3) (path_join [schemaPath V; thing +:+ "_schema.yml"]) in
  Ok (getDataFromFile E V (path_join [schemaPath V; thing +:+ "_schema.yml"]) st3).

End Run.

(** The counters only go up, and [nonFixedFormatting] by no more than
    [formatting]. *)
Definition counts_grow (e e' : Errors) : Prop :=
  (formatting e <= formatting e')%N
  /\ (validation e <= validation e')%N
  /\ (nonFixedFormatting e <= nonFixedFormatting e')%N
  /\ (nonFixedFormatting e' + formatting e <= formatting e' + nonFixedFormatting e)%N.

(** What every step of a validator [V] does to the state: the counters
    grow, output is appended, the paths of the file system stay as they are,
    and without the repair option so do the files. *)
Definition advances (V : Validator) (st st' : vstate) : Prop :=
  counts_grow (errors st) (errors st')
  /\ stdout st `prefix_of` stdout st'
  /\ Obj.keys (fs st') = Obj.keys (fs st)
  /\ (fixFormatting V = false -> fs st' = fs st).

(** The field [k] of a record, [undefined] when it has none. *)
Definition field (fields : jsobj value) (k : string) : value :=
  default VUndef (Obj.get k fields).

(** How many of [codes] do not resolve in the collection [o]. *)
Definition unresolved (o : jsobj value) (codes : list value) : nat :=
  length (List.filter (fun k => negb (resolves k o)) codes).

(** How many of the four character attributes a record lacks. *)
Definition missing_attributes (fields : jsobj value) : nat :=
  length (List.filter (fun k => negb (Obj.has k fields))
            ["version"; "strength"; "willpower"; "lore"]).

Definition schema_valid (check : validator) (thingData : value) : bool :=
  match check thingData with
  | None => true
  | Some _ => false
  end.

(** What [separate_items] does to a line that is not the first. *)
Definition separated (line : string) : list string :=
  if Str.startsWith "-" line then [EmptyString; line] else [line].

(** A value that is neither a list nor an object nor [undefined]. *)
Definition primitive (v : value) : bool :=
  match v with
  | VNull | VBool _ | VNum _ | VReal _ | VStr _ => true
  | _ => false
  end.

Definition is_object (v : value) : bool :=
  match v with
  | VObj _ => true
  | _ => false
  end.

(** A record as YAML scalars give it: distinct keys, primitive values. *)
Definition flat_record (fields : jsobj value) : Prop :=
  NoDup (Obj.keys fields) /\ Forall (fun kv : string * value => primitive kv.2 = true) fields.

(** ** Sample data sets

    Small file trees under [/repo] on which the runs below are evaluated.
    The texts are YAML as js-yaml prints it; [yaml.load] and [yaml.dump]
    are tables over the texts that occur, and the schema compiler accepts
    the one schema the samples use. *)

Module Sample.

Definition lines (l : list string) : string :=
  Str.join nl l +:+ nl.

Definition root : string := "/repo".

Definition kinds : list string := map fst things.

Definition schema_text : string := lines ["type: object"; "required:"; "  - code"].
Definition schema_value : value :=
  VObj [("type", VStr "object"); ("required", VArr [VStr "code"])].

(** A schema ajv refuses to compile: [objekt] is no JSON type. *)
Definition bad_schema_text : string := lines ["type: objekt"].
Definition bad_schema_value : value := VObj [("type", VStr "objekt")].

Definition amber_text : string := lines ["code: amber"; "name: Amber"].
Definition amber : value := VObj [("code", VStr "amber"); ("name", VStr "Amber")].

(** The same record with its keys out of canonical order. *)
Definition amber_unsorted_text : string := lines ["name: Amber"; "code: amber"].

(** A second ink file that repeats the code [amber]. *)
Definition amber2_text : string := lines ["code: amber"; "name: Amber again"].
Definition amber2 : value := VObj [("code", VStr "amber"); ("name", VStr "Amber again")].

Definition amber_es_text : string := lines ["code: amber"; "name: Ambar"].
Definition amber_es : value := VObj [("code", VStr "amber"); ("name", VStr "Ambar")].

Definition ruby_es_text : string := lines ["code: ruby"; "name: Rubi"].
Definition ruby_es : value := VObj [("code", VStr "ruby"); ("name", VStr "Rubi")].

Definition character_text : string := lines ["code: character"; "name: Character"].
Definition character : value := VObj [("code", VStr "character"); ("name", VStr "Character")].

Definition tfc_text (langs : list string) : string :=
  lines (["code: tfc"; "languages:"] ++ map (fun l => "  - " +:+ l) langs).
Definition tfc (langs : list string) : value :=
  VObj [("code", VStr "tfc"); ("languages", VArr (map VStr langs))].

Definition ariel_text : string :=
  lines ["code: ariel"; "name: Ariel"; "version: On Human Legs"; "ink: amber";
         "strength: 3"; "willpower: 4"; "lore: 2"].
Definition ariel : value :=
  VObj [("code", VStr "ariel"); ("name", VStr "Ariel"); ("version", VStr "On Human Legs");
        ("ink", VStr "amber"); ("strength", VNum 3); ("willpower", VNum 4); ("lore", VNum 2)].

(** A card file that declares a [type] of its own. *)
Definition dinglehopper_text : string :=
  lines ["code: dinglehopper"; "name: Dinglehopper"; "ink: amber"; "type: item"].
Definition dinglehopper : value :=
  VObj [("code", VStr "dinglehopper"); ("name", VStr "Dinglehopper"); ("ink", VStr "amber");
        ("type", VStr "item")].

(** Canonical texts and the values they denote. *)
Definition canonical : list (string * value) :=
  [(schema_text, schema_value); (bad_schema_text, bad_schema_value);
   (amber_text, amber); (amber2_text, amber2); (amber_es_text, amber_es);
   (ruby_es_text, ruby_es); (character_text, character);
   (tfc_text ["en"], tfc ["en"]); (tfc_text ["en"; "es"], tfc ["en"; "es"]);
   (tfc_text ["en"; "es"; "fr"], tfc ["en"; "es"; "fr"]);
   (ariel_text, ariel); (dinglehopper_text, dinglehopper)].

Definition load (text : string) : option value :=
  Obj.get text (canonical ++ [(amber_unsorted_text, amber)]).

Definition dump (data : value) (_ : dump_options) : option string :=
  fst <$> List.find (fun tv => value_eqb data tv.2) canonical.

Definition compile (schema : value) : option validator :=
  if value_eqb schema schema_value
  then Some (fun data => if lodash_has data "code" then None
                         else Some [(EmptyString, "must have required property 'code'")])
  else None.

(** [glob.sync("**/*.yml", {cwd})] over the data files of a tree. *)
Definition glob (files : list (string * string)) (cwd : string) : list string :=
  omap (fun f => drop_prefix (cwd +:+ "/") f.1) files.

Definition env (files : list (string * string)) : Env :=
  {| glob_sync := glob files; yaml_load := load; yaml_dump := dump; ajv_compile := compile |}.

Definition dirs (data : string) : list (string * node) :=
  (data, Dir true) :: map (fun k => (data +:+ "/" +:+ plural k, Dir true)) kinds.

Definition schemas (dir : string) (broken : list string) : list (string * node) :=
  (dir, Dir true)
  :: map (fun k => (dir +:+ "/" +:+ k +:+ "_schema.yml",
                    File true true (if includes_str broken k then bad_schema_text
                                    else schema_text))) kinds.

(** The tree: the base directories, those of [locales], the schema
    files (those of the kinds in [broken] do not compile) and the data
    [files], all readable and writable. *)
Definition tree (locales broken : list string) (files : list (string * string)) : fsys :=
  ("/repo", Dir true)
  :: dirs "/repo/data"
  ++ match locales with
     | [] => []
     | _ => [("/repo/data/translations", Dir true)]
     end
  ++ flat_map (fun l => dirs ("/repo/data/translations/" +:+ l)) locales
  ++ schemas "/repo/schema" broken
  ++ schemas "/repo/schema/translations" []
  ++ map (fun f => (f.1, File true true f.2)) files.

(** One ink and one set; the locale [es] translates the ink. *)
Definition translated : list (string * string) :=
  [("/repo/data/inks/amber.yml", amber_text);
   ("/repo/data/sets/tfc.yml", tfc_text ["en"; "es"]);
   ("/repo/data/translations/es/inks/amber.yml", amber_es_text)].

(** Two locales; both translate an ink [ruby] the base does not have. *)
Definition stray : list (string * string) :=
  [("/repo/data/inks/amber.yml", amber_text);
   ("/repo/data/sets/tfc.yml", tfc_text ["en"; "es"; "fr"]);
   ("/repo/data/translations/es/inks/ruby.yml", ruby_es_text);
   ("/repo/data/translations/fr/inks/ruby.yml", ruby_es_text)].

(** An ink file whose keys are out of order. *)
Definition unsorted : list (string * string) :=
  [("/repo/data/inks/amber.yml", amber_unsorted_text);
   ("/repo/data/sets/tfc.yml", tfc_text ["en"])].

(** One ink and one set that lists the locale [es]; the trees below give
    it no [translations] directory. *)
Definition untranslated : list (string * string) :=
  [("/repo/data/inks/amber.yml", amber_text);
   ("/repo/data/sets/tfc.yml", tfc_text ["en"; "es"])].

(** An ink file out of canonical order in the base, and in the locale
    [es] an ink the base does not have. *)
Definition unsorted_and_stray : list (string * string) :=
  [("/repo/data/inks/amber.yml", amber_unsorted_text);
   ("/repo/data/sets/tfc.yml", tfc_text ["en"; "es"]);
   ("/repo/data/translations/es/inks/ruby.yml", ruby_es_text)].

(** Two ink files with the same code. *)
Definition duplicated : list (string * string) :=
  [("/repo/data/inks/amber.yml", amber_text);
   ("/repo/data/inks/amber2.yml", amber2_text);
   ("/repo/data/sets/tfc.yml", tfc_text ["en"])].

(** One character card and one item card that declares its type. *)
Definition with_cards : list (string * string) :=
  [("/repo/data/inks/amber.yml", amber_text);
   ("/repo/data/types/character.yml", character_text);
   ("/repo/data/cards/character/ariel.yml", ariel_text);
   ("/repo/data/cards/character/dinglehopper.yml", dinglehopper_text)].

Definition V : Validator := main_validator root.

(** A character card, as the loader hands it to the validator, without
    [version], [strength], [willpower] and [lore]. *)
Definition sebastian : value :=
  VObj [("code", VStr "sebastian"); ("name", VStr "Sebastian"); ("ink", VStr "amber");
        ("type", VStr "character")].

(** The state in which [sebastian] is validated. *)
Definition before_sebastian : vstate :=
  mkState true no_errors
    [("ink", [("amber", amber)]); ("trait", []); ("keyword", []);
     ("type", [("character", character)])]
    (tree [] [] with_cards) [].

Definition accepts_all : validator := fun _ => None.

Definition after_sebastian : vstate :=
  match validateSchema V "card" sebastian accepts_all before_sebastian with
  | Ok (_, st) => st
  | Throw _ => before_sebastian
  end.

(** The state after the base pass of a tree. *)
Definition after_base (locales broken : list string) (files : list (string * string))
    : vstate :=
  match ValidatorBase_validate (env files) V (initial_state (tree locales broken files)) with
  | Ok st => st
  | Throw _ => initial_state (tree locales broken files)
  end.

(** The state [main] ends in. *)
Definition after_main (locales broken : list string) (files : list (string * string))
    : vstate :=
  match main (env files) root (tree locales broken files) with
  | Ok (_, st) => st
  | Throw _ => initial_state (tree locales broken files)
  end.

(** The state in which the ink schema is about to be compiled. *)
Definition at_compile (broken : list string) (files : list (string * string))
    : value * vstate :=
  match before_compile (env files) V "ink" None (initial_state (tree [] broken files)) with
  | Ok r => r
  | Throw _ => (VUndef, initial_state (tree [] broken files))
  end.

(** Keywords and printings for the examples. *)
Definition keyword (rules : string) (args : list string) : value :=
  VObj [("code", VStr "shift"); ("rules", VStr rules); ("args", VArr (map VStr args))].

Definition printing (code : string) (position : Z) : value :=
  VObj [("code", VStr code); ("card", VStr "ariel"); ("set", VStr "tfc");
        ("position", VNum position); ("flavor", VStr ("Flavor of " +:+ code))].

(** The sample character card as the loader hands it over. *)
Definition ariel_card : list (string * value) :=
  extend [VObj [("code", VStr "ariel"); ("name", VStr "Ariel");
                ("version", VStr "On Human Legs"); ("ink", VStr "amber");
                ("inkwell", VBool true); ("strength", VNum 3);
                ("willpower", VNum 4); ("lore", VNum 2);
                ("keywords", VArr [VStr "singer"])];
          card_pathInfo "character/ariel.yml"].

(** A set that names a cycle, and one that has no [languages]. *)
Definition tfc_in_cycle : list (string * value) :=
  [("code", VStr "tfc"); ("cycle", VStr "first"); ("languages", VArr [VStr "en"])].

Definition set_without_languages : jsobj (jsobj value) :=
  [("set", [("tfc", VObj [("code", VStr "tfc")])])].

(** The validator of the locale [es]. *)
Definition es_validator : Validator :=
  match new_I18NValidator (VStr "es") root 0 4 true with
  | Ok Vi => Vi
  | Throw _ => V
  end.

(** A compiled schema that requires a [code]. *)
Definition requires_code : validator :=
  fun data => if lodash_has data "code" then None
              else Some [(EmptyString, "must have required property 'code'")].

(** What the loop of [validateCollection] returns in the locale [es] for
    two inks, of which the base has the first only. *)
Definition two_inks : bool * vstate :=
  match validateCollection_items es_validator "ink" accepts_all [amber_es; ruby_es] true
          before_sebastian with
  | Ok r => r
  | Throw _ => (false, before_sebastian)
  end.

(** The same for an ink and a record without a code, under a schema that
    requires one. *)
Definition ink_and_nameless : bool * vstate :=
  match validateCollection_items es_validator "ink" requires_code
          [amber_es; VObj [("name", VStr "Nameless")]] true before_sebastian with
  | Ok r => r
  | Throw _ => (true, before_sebastian)
  end.

(** A tree whose ink schema file holds [null], with a parser and a dumper
    that know that text. *)
Definition null_text : string := lines ["null"].

Definition env_with_null (files : list (string * string)) : Env :=
  {| glob_sync := glob files;
     yaml_load := fun text => if Str.eqb text null_text then Some VNull else load text;
     yaml_dump := fun data options =>
                    if value_eqb data VNull then Some null_text else dump data options;
     ajv_compile := compile |}.

Definition tree_with_null_schema (files : list (string * string)) : fsys :=
  Obj.replace "/repo/schema/ink_schema.yml" (File true true null_text) (tree [] [] files).

Definition at_null_schema : value * vstate :=
  match before_compile (env_with_null translated) V "ink" None
          (initial_state (tree_with_null_schema translated)) with
  | Ok r => r
  | Throw _ => (VUndef, initial_state (tree_with_null_schema translated))
  end.

(** What [Validator.validate] returns on a tree, for a validator created
    with the given repair option. *)
Definition validator_with (repair : bool) : Validator :=
  new_ValidatorBase root 0 0 EmptyString repair.

Definition outcome (repair : bool) (locales broken : list string)
    (files : list (string * string)) : list Errors * vstate :=
  match Validator_validate (env files) (validator_with repair)
          (initial_state (tree locales broken files)) with
  | Ok r => r
  | Throw _ => ([], initial_state (tree locales broken files))
  end.

(** A tree with an ink file that is not YAML. *)
Definition garbled : list (string * string) :=
  [("/repo/data/inks/amber.yml", "code: [amber");
   ("/repo/data/inks/ruby.yml", ruby_es_text)].

End Sample.

(** * Properties *)

(** ** Objects *)

Module ObjFacts.
Section Facts.
Context {A : Type}.
Implicit Types (o : jsobj A) (k : string) (v : A).

Lemma eqb_eq k k' : Str.eqb k k' = true <-> k = k'.
Proof. unfold Str.eqb. apply bool_decide_eq_true. Qed.

Lemma eqb_refl k : Str.eqb k k = true.
Proof. by apply eqb_eq. Qed.

Lemma eqb_ne k k' : k ≠ k' -> Str.eqb k k' = false.
Proof. intros H. unfold Str.eqb. by apply bool_decide_eq_false. Qed.

Lemma eqb_sym k k' : Str.eqb k k' = Str.eqb k' k.
Proof. unfold Str.eqb. apply bool_decide_ext. split; congruence. Qed.

Lemma get_replace o k v k' :
  Obj.get k' (Obj.replace k v o) =
  if Str.eqb k' k then (fun _ => v) <$> Obj.get k o else Obj.get k' o.
Proof.
  induction o as [|[k0 v0] r IH]; simpl.
  - by destruct (Str.eqb k' k).
  - destruct (Str.eqb k k0) eqn:Hk; simpl.
    + apply eqb_eq in Hk as ->.
      by destruct (Str.eqb k' k0).
    + destruct (Str.eqb k' k0) eqn:Hk'; simpl.
      * apply eqb_eq in Hk' as ->.
        destruct (Str.eqb k0 k) eqn:Hk0; [|done].
        apply eqb_eq in Hk0 as ->. by rewrite eqb_refl in Hk.
      * apply IH.
Qed.

Lemma get_add_index i o k v k' :
  Obj.get k o = None ->
  Obj.get k' (Obj.add_index i k v o) = if Str.eqb k' k then Some v else Obj.get k' o.
Proof.
  induction o as [|[k0 v0] r IH]; simpl; intros Hnone.
  - by destruct (Str.eqb k' k).
  - destruct (Str.eqb k k0) eqn:Hk; [done|].
    assert (Hstep : Obj.get k' ((k, v) :: (k0, v0) :: r) =
                    if Str.eqb k' k then Some v
                    else if Str.eqb k' k0 then Some v0 else Obj.get k' r) by done.
    destruct (Str.array_index k0) as [j|]; [|exact Hstep].
    destruct (j <? i)%N; [|exact Hstep].
    simpl. destruct (Str.eqb k' k0) eqn:Hk'.
    + apply eqb_eq in Hk' as ->. by rewrite eqb_sym, Hk.
    + by apply IH.
Qed.

Lemma get_app o1 o2 k :
  Obj.get k (o1 ++ o2) = match Obj.get k o1 with Some v => Some v | None => Obj.get k o2 end.
Proof.
  induction o1 as [|[k0 v0] r IH]; simpl; [done|].
  by destruct (Str.eqb k k0).
Qed.

Lemma get_add o k v k' :
  Obj.get k o = None ->
  Obj.get k' (Obj.add k v o) = if Str.eqb k' k then Some v else Obj.get k' o.
Proof.
  intros Hnone. unfold Obj.add.
  destruct (Str.array_index k); [by apply get_add_index|].
  rewrite get_app. simpl.
  destruct (Str.eqb k' k) eqn:Hk.
  - apply eqb_eq in Hk as ->. by rewrite Hnone.
  - by destruct (Obj.get k' o).
Qed.

(** Reading back what was assigned. *)
Lemma get_set o k v k' :
  Obj.get k' (Obj.set k v o) = if Str.eqb k' k then Some v else Obj.get k' o.
Proof.
  unfold Obj.set, Obj.has.
  destruct (Obj.get k o) eqn:Hget.
  - rewrite get_replace, Hget. done.
  - by apply get_add.
Qed.

Lemma get_set_eq o k v : Obj.get k (Obj.set k v o) = Some v.
Proof. by rewrite get_set, eqb_refl. Qed.

Lemma get_set_ne o k v k' : k' ≠ k -> Obj.get k' (Obj.set k v o) = Obj.get k' o.
Proof. intros H. by rewrite get_set, eqb_ne. Qed.

Lemma get_None_notin o k : k ∉ Obj.keys o -> Obj.get k o = None.
Proof.
  induction o as [|[k0 v0] r IH]; simpl; [done|].
  intros Hnotin. apply not_elem_of_cons in Hnotin as [Hne Hr].
  rewrite eqb_ne by done. by apply IH.
Qed.

(** With distinct source keys, [assign] is the union in which the source
    wins. *)
Lemma get_assign (dst src : jsobj A) k :
  NoDup (Obj.keys src) ->
  Obj.get k (Obj.assign dst src) =
  match Obj.get k src with Some v => Some v | None => Obj.get k dst end.
Proof.
  unfold Obj.assign. revert dst.
  induction src as [|[k0 v0] r IH]; simpl; intros dst Hnd; [done|].
  apply NoDup_cons in Hnd as [Hnotin Hnd].
  rewrite IH by done. rewrite get_set.
  destruct (Str.eqb k k0) eqn:Hk.
  - apply eqb_eq in Hk as ->. by rewrite get_None_notin.
  - done.
Qed.

End Facts.
End ObjFacts.

(** ** Collection Loader: path-derived metadata *)

Section Loader.
Context (E : Env).

Lemma loadThingsData_files_spec V thingPath info files collection st :
  (loadThingsData_files E V thingPath info files collection st).1 =
  collection ++ flat_map (fun fj => map (attach info fj.1) (as_list fj.2))
                  (files_read E V thingPath files st).
Proof.
  revert collection st.
  induction files as [|file rest IH]; intros collection st; simpl.
  - by rewrite app_nil_r.
  - destruct (getDataFromFile E V (path_join [thingPath; file]) st) as [json st1].
    rewrite IH. simpl. by rewrite app_assoc.
Qed.

Lemma files_read_names V thingPath files st :
  map fst (files_read E V thingPath files st) = files.
Proof.
  revert st. induction files as [|file rest IH]; intros st; simpl; [done|].
  destruct (getDataFromFile E V (path_join [thingPath; file]) st) as [json st1].
  simpl. by rewrite IH.
Qed.

End Loader.

Lemma extend_card (item : value) file k :
  Obj.get k (extend [item; card_pathInfo file]) =
  if Str.eqb k "type" then Some (VStr (first_segment file))
  else Obj.get k (Obj.assign [] (enumerable item)).
Proof.
  unfold extend. cbn [fold_left].
  rewrite ObjFacts.get_assign by (apply NoDup_singleton).
  cbn [enumerable card_pathInfo Obj.get].
  by destruct (Str.eqb k "type").
Qed.

Lemma extend_card_type item file :
  Obj.get "type" (extend [item; card_pathInfo file]) = Some (VStr (first_segment file)).
Proof. by rewrite extend_card. Qed.

Lemma extend_card_other fields file k :
  NoDup (Obj.keys fields) -> k ≠ "type" ->
  Obj.get k (extend [VObj fields; card_pathInfo file]) = Obj.get k fields.
Proof.
  intros Hnd Hk. rewrite extend_card, ObjFacts.eqb_ne by done.
  cbn [enumerable]. rewrite ObjFacts.get_assign by done.
  by destruct (Obj.get k fields).
Qed.

(** C1, as stated, fails: a card file under [character/] that declares
    [type: item] is loaded with [type] equal to [character]; the explicit
    value does not survive the merge. *)
Lemma explicit_type_is_overridden :
  let st := initial_state (Sample.tree [] [] Sample.with_cards) in
  let loaded := (loadThingsData (Sample.env Sample.with_cards) Sample.V
                   "/repo/data/cards" (Some card_pathInfo) st).1 in
  files_read (Sample.env Sample.with_cards) Sample.V "/repo/data/cards"
    (glob_sync (Sample.env Sample.with_cards) "/repo/data/cards") st
  = [("character/ariel.yml", Sample.ariel);
     ("character/dinglehopper.yml", Sample.dinglehopper)]
  /\ get_prop Sample.dinglehopper "type" = Ok (VStr "item")
  /\ loaded !! 1%nat
     = Some (VObj [("code", VStr "dinglehopper"); ("name", VStr "Dinglehopper");
                   ("ink", VStr "amber"); ("type", VStr "character")])
  /\ ~ (forall r k v, loaded !! 1%nat = Some r ->
          get_prop Sample.dinglehopper k = Ok v -> get_prop r k = Ok v).
Proof.
  vm_compute. repeat split.
  intros H. specialize (H _ "type" _ eq_refl eq_refl). discriminate H.
Qed.

(** C1, amended: every record the loader returns for the card kind is a
    parsed item of one of the globbed files merged with the path-derived
    [type] of that file; its [type] is the first segment of the file's
    path, whatever the file declares, and every other field is the
    explicit one. *)
Theorem loaded_card_type_is_path_type (E : Env) V thingPath st r :
  r ∈ (loadThingsData E V thingPath (Some card_pathInfo) st).1 ->
  exists file json item,
    (file, json) ∈ files_read E V thingPath (glob_sync E thingPath) st
    /\ item ∈ as_list json
    /\ r = VObj (extend [item; card_pathInfo file])
    /\ get_prop r "type" = Ok (VStr (first_segment file))
    /\ (forall fields, item = VObj fields -> NoDup (Obj.keys fields) ->
        forall k, k ≠ "type" -> get_prop r k = get_prop item k).
Proof.
  unfold loadThingsData. rewrite loadThingsData_files_spec. simpl.
  intros Hin. apply list_elem_of_In, in_flat_map in Hin as [[file json] [Hfile Hin]].
  apply in_map_iff in Hin as [item [<- Hitem]]. simpl.
  exists file, json, item. repeat split.
  - by apply list_elem_of_In.
  - by apply list_elem_of_In.
  - simpl. by rewrite extend_card_type.
  - intros fields -> Hnd k Hk. simpl. by rewrite extend_card_other.
Qed.

(** The item card under [character/] of the sample tree. *)
Lemma loaded_card_type_is_path_type_witness :
  exists file json item,
    (file, json) ∈ files_read (Sample.env Sample.with_cards) Sample.V "/repo/data/cards"
                     (glob_sync (Sample.env Sample.with_cards) "/repo/data/cards")
                     (initial_state (Sample.tree [] [] Sample.with_cards))
    /\ item ∈ as_list json
    /\ VObj (Obj.set "type" (VStr "character") (enumerable Sample.dinglehopper))
       = VObj (extend [item; card_pathInfo file])
    /\ get_prop (VObj (Obj.set "type" (VStr "character") (enumerable Sample.dinglehopper)))
         "type" = Ok (VStr (first_segment file))
    /\ (forall fields, item = VObj fields -> NoDup (Obj.keys fields) ->
        forall k, k ≠ "type" ->
        get_prop (VObj (Obj.set "type" (VStr "character") (enumerable Sample.dinglehopper))) k
        = get_prop item k).
Proof.
  apply (loaded_card_type_is_path_type (Sample.env Sample.with_cards) Sample.V
           "/repo/data/cards" (initial_state (Sample.tree [] [] Sample.with_cards))).
  vm_compute. apply list_elem_of_further, list_elem_of_here.
Defined.

(** ** Code-to-record mappings *)

Lemma loadCollections_items_app before after o :
  loadCollections_items (before ++ after) o =
  let? o1 := loadCollections_items before o in loadCollections_items after o1.
Proof.
  revert o. induction before as [|item rest IH]; intros o; simpl; [done|].
  destruct (get_prop item "code"); simpl; [apply IH | done].
Qed.

(** Records filed under other keys leave a key alone. *)
Lemma loadCollections_items_frame collection o o' k :
  loadCollections_items collection o = Ok o' ->
  (forall item, item ∈ collection -> code_key item ≠ k) ->
  Obj.get k o' = Obj.get k o.
Proof.
  revert o. induction collection as [|item rest IH]; intros o; simpl.
  - by intros [= ->].
  - intros Hrun Hother.
    assert (Hitem : code_key item ≠ k) by (apply Hother; left).
    unfold code_key in Hitem.
    destruct (get_prop item "code") as [code|]; simpl in Hrun; [|done].
    rewrite (IH _ Hrun) by (intros x Hx; apply Hother; by right).
    by apply ObjFacts.get_set_ne.
Qed.

Lemma loadCollections_items_last before item after o o' :
  loadCollections_items (before ++ item :: after) o = Ok o' ->
  (forall later, later ∈ after -> code_key later ≠ code_key item) ->
  Obj.get (code_key item) o' = Some item.
Proof.
  rewrite loadCollections_items_app.
  destruct (loadCollections_items before o) as [o1|]; simpl; [|done].
  unfold code_key at 2 3.
  destruct (get_prop item "code") as [code|]; simpl; [|done].
  intros Hrun Hlater.
  rewrite (loadCollections_items_frame _ _ _ _ Hrun Hlater).
  apply ObjFacts.get_set_eq.
Qed.

(** C8, as stated, fails: two ink files with the code [amber] are both
    loaded and both pass; the mapping keeps the second record only, and the
    run reports no error and exits with 0. *)
Lemma duplicate_code_replaces_silently :
  ~ no_record_lost
  /\ loadCollections "ink" [Sample.amber; Sample.amber2] []
     = Ok [("ink", [("amber", Sample.amber2)])]
  /\ exists st,
       main (Sample.env Sample.duplicated) Sample.root (Sample.tree [] [] Sample.duplicated)
       = Ok (0, st)
       /\ errors st = no_errors
       /\ Obj.get "ink" (collections st) = Some [("amber", Sample.amber2)].
Proof.
  split; [|split].
  - intros H.
    destruct (H "ink" [Sample.amber; Sample.amber2] [] _ eq_refl Sample.amber)
      as [o [Ho Hin]]; [left|].
    vm_compute in Ho. injection Ho as <-.
    vm_compute in Hin. apply list_elem_of_In in Hin as [Hin|[]]. discriminate Hin.
  - reflexivity.
  - eexists. split; [vm_compute; reflexivity|]. split; reflexivity.
Qed.

(** C8, amended: the mapping built from the loaded list holds, under its
    code, every record that no later record of the list repeats the code
    of; nothing checks that codes are distinct. *)
Theorem loadCollections_keeps_last_of_each_code thing before item after cs cs' :
  loadCollections thing (before ++ item :: after) cs = Ok cs' ->
  (forall later, later ∈ after -> code_key later ≠ code_key item) ->
  exists o, Obj.get thing cs' = Some o /\ Obj.get (code_key item) o = Some item.
Proof.
  unfold loadCollections. intros Hrun Hlater.
  destruct (loadCollections_items (before ++ item :: after) (default [] (Obj.get thing cs)))
    as [o'|] eqn:Hitems; simpl in Hrun; [|done].
  injection Hrun as <-. exists o'. split.
  - apply ObjFacts.get_set_eq.
  - by apply (loadCollections_items_last before item after _ _ Hitems).
Qed.

(** Three inks, the first two with the same code. *)
Lemma loadCollections_keeps_last_of_each_code_witness :
  exists o, Obj.get "ink" [("ink", [("amber", Sample.amber2); ("ruby", Sample.ruby_es)])] = Some o
            /\ Obj.get (code_key Sample.amber2) o = Some Sample.amber2.
Proof.
  apply (loadCollections_keeps_last_of_each_code "ink" [Sample.amber] Sample.amber2
           [Sample.ruby_es] []).
  - reflexivity.
  - intros later Hin. apply list_elem_of_In in Hin as [<-|[]]. vm_compute. discriminate.
Defined.

(** ** Counting failed records *)

Lemma errors_log V text lvl st : errors (log V text lvl st) = errors st.
Proof. unfold log. by destruct (verbose V >=? lvl). Qed.

Lemma collections_log V text lvl st : collections (log V text lvl st) = collections st.
Proof. unfold log. by destruct (verbose V >=? lvl). Qed.

Lemma fs_log V text lvl st : fs (log V text lvl st) = fs st.
Proof. unfold log. by destruct (verbose V >=? lvl). Qed.

Lemma stdout_log_last V text lvl st :
  lvl <= verbose V -> last (stdout (log V text lvl st)) = Some text.
Proof.
  intros Hv. unfold log.
  destruct (Z.geb_spec (verbose V) lvl) as [_|Hlt]; [|lia].
  simpl. by rewrite app_assoc, last_snoc.
Qed.

Ltac log_simpl :=
  repeat (progress (cbn; rewrite ?errors_log, ?fs_log, ?collections_log)).

(** C10: a record that fails, by its schema or by the business rules,
    adds exactly one to [validation] however many violations it has, and
    all of them are printed in the one report that follows; a record that
    passes adds nothing. Neither touches the formatting counters. *)
Theorem validateSchema_counts_a_failed_record_once V thing thingData check st valid st' :
  validateSchema V thing thingData check st = Ok (valid, st') ->
  exists outcome,
    violations_of V (collections st) thing thingData check = Ok outcome
    /\ formatting (errors st') = formatting (errors st)
    /\ nonFixedFormatting (errors st') = nonFixedFormatting (errors st)
    /\ match outcome with
       | Passes =>
           valid = true /\ validation (errors st') = validation (errors st)
       | SchemaViolations errs =>
           valid = false
           /\ validation (errors st') = (validation (errors st) + 1)%N
           /\ (0 <= verbose V -> last (stdout st') = Some (schema_report thing errs))
       | RuleViolations e r =>
           valid = true
           /\ validation (errors st') = (validation (errors st) + 1)%N
           /\ (0 <= verbose V -> last (stdout st') = Some (custom_report (e :: r)))
       end.
Proof.
  unfold validateSchema, violations_of.
  destruct (get_prop thingData "code") as [code|]; simpl; [|done].
  rewrite collections_log.
  destruct (check thingData) as [errs|].
  - intros [= <- <-]. eexists. split; [done|].
    rewrite !errors_log. simpl. rewrite !errors_log.
    repeat split; try done. intros Hv. by apply stdout_log_last.
  - destruct (customCheck V (collections st) thing thingData) as [[|e r]|]; simpl; [| |done].
    + intros [= <- <-]. eexists. split; [done|].
      by rewrite !errors_log.
    + intros [= <- <-]. eexists. split; [done|].
      rewrite !errors_log. simpl. rewrite !errors_log.
      repeat split; try done. intros Hv. by apply stdout_log_last.
Qed.

(** The sample character card without its four attributes. *)
Lemma validateSchema_counts_a_failed_record_once_witness :
  exists outcome,
    violations_of Sample.V (collections Sample.before_sebastian) "card" Sample.sebastian
      Sample.accepts_all = Ok outcome
    /\ formatting (errors Sample.after_sebastian) = formatting (errors Sample.before_sebastian)
    /\ nonFixedFormatting (errors Sample.after_sebastian)
       = nonFixedFormatting (errors Sample.before_sebastian)
    /\ match outcome with
       | Passes =>
           true = true
           /\ validation (errors Sample.after_sebastian)
              = validation (errors Sample.before_sebastian)
       | SchemaViolations errs =>
           true = false
           /\ validation (errors Sample.after_sebastian)
              = (validation (errors Sample.before_sebastian) + 1)%N
           /\ (0 <= verbose Sample.V ->
               last (stdout Sample.after_sebastian) = Some (schema_report "card" errs))
       | RuleViolations e r =>
           true = true
           /\ validation (errors Sample.after_sebastian)
              = (validation (errors Sample.before_sebastian) + 1)%N
           /\ (0 <= verbose Sample.V ->
               last (stdout Sample.after_sebastian) = Some (custom_report (e :: r)))
       end.
Proof.
  apply (validateSchema_counts_a_failed_record_once Sample.V "card" Sample.sebastian
           Sample.accepts_all Sample.before_sebastian true Sample.after_sebastian).
  vm_compute. reflexivity.
Defined.

(** The sample record has four violations and counts once. *)
Example sebastian_counts_once :
  violations_of Sample.V (collections Sample.before_sebastian) "card" Sample.sebastian
    Sample.accepts_all
  = Ok (RuleViolations
          ("Character card code " +:+ c "sebastian" +:+ " must have attribute version")
          ["Character card code " +:+ c "sebastian" +:+ " must have attribute strength";
           "Character card code " +:+ c "sebastian" +:+ " must have attribute willpower";
           "Character card code " +:+ c "sebastian" +:+ " must have attribute lore"])
  /\ validation (errors Sample.after_sebastian) = 1%N.
Proof. split; vm_compute; reflexivity. Qed.

(** ** The run: exit status and the locale passes *)

Section RunFacts.
Context (E : Env).

Lemma validateLocales_loop_totals V locales st passes st' :
  validateLocales_loop E V locales st = Ok (passes, st') ->
  formatting (errors st') = (formatting (errors st) + total formatting passes)%N
  /\ validation (errors st') = (validation (errors st) + total validation passes)%N
  /\ nonFixedFormatting (errors st')
     = (nonFixedFormatting (errors st) + total nonFixedFormatting passes)%N.
Proof.
  revert st passes st'.
  induction locales as [|l rest IH]; intros st passes st'; simpl.
  - intros [= <- <-]. simpl. lia.
  - destruct (new_I18NValidator l (basePath V) (verbose V) (indent V + 4) (fixFormatting V))
      as [Vi|]; simpl; [|done].
    destruct (ValidatorBase_validate E Vi _) as [sti|]; simpl; [|done].
    destruct (validateLocales_loop E V rest _) as [[more st'']|] eqn:Hrest; simpl; [|done].
    intros [= <- <-].
    apply IH in Hrest as (Hf & Hv & Hn). simpl in *. lia.
Qed.

(** A file whose text is not its canonical text counts as a formatting
    error, whether or not it is then repaired. *)
Lemma getDataFromFile_counts_misformatted V filepath st data json canonical :
  readFileSync (fs st) filepath = Some data ->
  yaml_load E data = Some json ->
  formatYaml E json (profile filepath) = Some canonical ->
  canonical ≠ data ->
  let st' := (getDataFromFile E V filepath st).2 in
  formatting (errors st') = (formatting (errors st) + 1)%N
  /\ validation (errors st') = validation (errors st)
  /\ (fixFormatting V = true -> canonical ≠ EmptyString ->
      forall fs', writeFileSync (fs st) filepath canonical = Some fs' ->
      fs st' = fs'
      /\ nonFixedFormatting (errors st') = nonFixedFormatting (errors st)).
Proof.
  intros Hread Hload Hfmt Hne. unfold getDataFromFile.
  rewrite Hread, Hload. rewrite fs_log.
  cbv zeta. rewrite Hfmt.
  rewrite (ObjFacts.eqb_ne canonical data) by done.
  destruct (fixFormatting V); cbn [andb].
  - destruct canonical as [|ch rest] eqn:Hc.
    { log_simpl. repeat split; try done. }
    assert (Hlen : (0 <? Z.of_nat (String.length (String ch rest))) = true)
      by (apply Z.ltb_lt; cbn [String.length]; lia).
    rewrite Hlen. cbn [truthy andb].
    rewrite ?fs_log. cbn [incr_formatting set_errors fs]. rewrite ?fs_log.
    destruct (writeFileSync (fs st) filepath (String ch rest)) as [fs'|] eqn:Hw.
    + log_simpl. repeat split; try done. congruence.
    + log_simpl. repeat split; try done.
  - log_simpl. repeat split; try done.
Qed.

(** What [main] returns: the counters [showResults] reads are those
    of the base pass plus the sums over the locale passes, and the code is 0
    exactly when [formatting] and [validation] add up to zero. *)
Lemma main_returns basePath' files code st :
  main E basePath' files = Ok (code, st) ->
  exists base passes st1,
    ValidatorBase_validate E (main_validator basePath') (initial_state files) = Ok base
    /\ Validator_validate E (main_validator basePath') (initial_state files)
       = Ok (passes, st1)
    /\ formatting (errors st) = (formatting (errors base) + total formatting passes)%N
    /\ validation (errors st) = (validation (errors base) + total validation passes)%N
    /\ (code = 0 <->
        (formatting (errors base) + total formatting passes
         + (validation (errors base) + total validation passes) = 0)%N).
Proof.
  intros Hmain. unfold main in Hmain.
  destruct (Validator_validate E (main_validator basePath') (initial_state files))
    as [[passes st1]|] eqn:Hrun; simpl in Hmain; [|done].
  injection Hmain as <- <-.
  pose proof Hrun as Hsteps. unfold Validator_validate in Hsteps.
  destruct (ValidatorBase_validate E (main_validator basePath') (initial_state files))
    as [base|] eqn:Hbase; simpl in Hsteps; [|done].
  exists base, passes, st1. split; [done|]. split; [done|].
  assert (Htot : formatting (errors st1) = (formatting (errors base) + total formatting passes)%N
                 /\ validation (errors st1)
                    = (validation (errors base) + total validation passes)%N).
  { destruct (validation (errors base) =? 0)%N.
    - unfold validateLocales in Hsteps.
      destruct (locales_of (collections base)) as [locales|]; simpl in Hsteps; [|done].
      apply validateLocales_loop_totals in Hsteps. tauto.
    - injection Hsteps as <- <-. rewrite errors_log. simpl. lia. }
  destruct Htot as [Hf Hv]. unfold showResults. rewrite errors_log. simpl.
  split; [done|]. split; [done|].
  rewrite Hf, Hv.
  destruct (N.eqb_spec (formatting (errors base) + total formatting passes
                        + (validation (errors base) + total validation passes)) 0);
    split; intros; try done; lia.
Qed.

(** C3, amended: the process exits with 0 exactly when the run
    completes, that is the base pass and every locale pass return, and the
    [formatting] and [validation] counters, summed over the base pass and
    the locale passes, are zero. A run that an exception ends exits with 1
    whatever has been counted. When [main] returns, the counters it reports
    are those sums; and a misformatted file adds one to [formatting] even
    when it is repaired on the spot. *)
Theorem exit_code_zero_iff_run_completes_without_errors basePath' files :
  (exit_code (main E basePath' files) = 0 <->
   exists base passes st1,
     ValidatorBase_validate E (main_validator basePath') (initial_state files) = Ok base
     /\ Validator_validate E (main_validator basePath') (initial_state files)
        = Ok (passes, st1)
     /\ (formatting (errors base) + total formatting passes
         + (validation (errors base) + total validation passes) = 0)%N)
  /\ (forall e, main E basePath' files = Throw e ->
        exit_code (main E basePath' files) = 1)
  /\ (forall code st, main E basePath' files = Ok (code, st) ->
      exists base passes st1,
        ValidatorBase_validate E (main_validator basePath') (initial_state files) = Ok base
        /\ Validator_validate E (main_validator basePath') (initial_state files)
           = Ok (passes, st1)
        /\ formatting (errors st) = (formatting (errors base) + total formatting passes)%N
        /\ validation (errors st) = (validation (errors base) + total validation passes)%N
        /\ (code = 0 <->
            (formatting (errors base) + total formatting passes
             + (validation (errors base) + total validation passes) = 0)%N))
  /\ (forall V filepath st0 data json canonical fs',
        readFileSync (fs st0) filepath = Some data ->
        yaml_load E data = Some json ->
        formatYaml E json (profile filepath) = Some canonical ->
        canonical ≠ data ->
        fixFormatting V = true -> canonical ≠ EmptyString ->
        writeFileSync (fs st0) filepath canonical = Some fs' ->
        let st1 := (getDataFromFile E V filepath st0).2 in
        fs st1 = fs'
        /\ formatting (errors st1) = (formatting (errors st0) + 1)%N
        /\ nonFixedFormatting (errors st1) = nonFixedFormatting (errors st0)).
Proof.
  split; [|split; [|split]].
  - destruct (main E basePath' files) as [[code st]|e] eqn:Hmain; cbn [exit_code].
    + destruct (main_returns basePath' files code st Hmain)
        as (base & passes & st1 & Hbase & Hrun & _ & _ & Hcode).
      split.
      * intros Hzero. exists base, passes, st1. by rewrite <- Hcode.
      * intros (base' & passes' & st1' & Hbase' & Hrun' & Hsum).
        rewrite Hbase in Hbase'. rewrite Hrun in Hrun'.
        injection Hbase' as <-. injection Hrun' as <- <-. by apply Hcode.
    + split; [done|].
      intros (base & passes & st1 & _ & Hrun & _).
      unfold main in Hmain. rewrite Hrun in Hmain. done.
  - by intros e ->.
  - apply main_returns.
  - intros V filepath st0 data json canonical fs' Hread Hload Hfmt Hne Hfix Hnonempty Hw.
    destruct (getDataFromFile_counts_misformatted V filepath st0 data json canonical
                Hread Hload Hfmt Hne) as (Hf & _ & Hrep).
    destruct (Hrep Hfix Hnonempty fs' Hw) as [Hfs Hn]. done.
Qed.

(** C4: after a base pass that ends with a non-zero [validation] count
    no locale validator is created: the run ends in the state of the base
    pass with the skip notice as its last output, so the locale validators
    add nothing to any counter. With a zero count the run goes on with
    [validateLocales]. *)
Theorem locales_only_after_clean_base V st base :
  ValidatorBase_validate E V st = Ok base ->
  (validation (errors base) ≠ 0%N ->
   exists st',
     Validator_validate E V st = Ok ([], st')
     /\ errors st' = errors base
     /\ collections st' = collections base
     /\ fs st' = fs base
     /\ (0 <= verbose V -> last (stdout st') = Some skip_notice))
  /\ (validation (errors base) = 0%N ->
      Validator_validate E V st = validateLocales E V base).
Proof.
  intros Hbase. unfold Validator_validate. rewrite Hbase. simpl. split.
  - intros Hne. apply N.eqb_neq in Hne. rewrite Hne.
    eexists. split; [done|].
    rewrite errors_log, collections_log, fs_log. repeat split.
    intros Hv. by apply stdout_log_last.
  - intros ->. done.
Qed.

End RunFacts.

(** ** A schema that does not compile *)

Section SchemaFailure.
Context (E : Env).

Lemma collections_getDataFromFile V filepath st :
  collections (getDataFromFile E V filepath st).2 = collections st.
Proof.
  unfold getDataFromFile, not_yaml.
  repeat case_match; log_simpl; done.
Qed.

Lemma collections_loadThingsData_files V thingPath info files collection st :
  collections (loadThingsData_files E V thingPath info files collection st).2 = collections st.
Proof.
  revert collection st. induction files as [|file rest IH]; intros collection st; simpl; [done|].
  destruct (getDataFromFile E V (path_join [thingPath; file]) st) as [json st1] eqn:Hget.
  rewrite IH. by rewrite <- (collections_getDataFromFile V (path_join [thingPath; file]) st), Hget.
Qed.

(** C6, amended: when the schema of a collection does not compile, one
    validation error is recorded on top of what loading and auditing its
    data files and its schema file recorded (those formatting checks have
    been made by then), no record of the collection is validated, the
    collection is not registered, and the loop goes on with the next
    collection. *)
Theorem schema_compile_failure_skips_the_collection V thing info st schemaData st4 :
  before_compile E V thing info st = Ok (schemaData, st4) ->
  truthy schemaData = true ->
  ajv_compile E schemaData = None ->
  let st' :=
    incr_validation
      (log V (path_join [schemaPath V; thing +:+ "_schema.yml"]
              +:+ ": schema file is not a valid JSON Schema" +:+ nl) 0 st4) in
  loadCollection E V thing info st = Ok (None, st')
  /\ validation (errors st') = (validation (errors st4) + 1)%N
  /\ formatting (errors st') = formatting (errors st4)
  /\ nonFixedFormatting (errors st') = nonFixedFormatting (errors st4)
  /\ collections st' = collections st
  /\ forall rest,
       validate_things E V ((thing, info) :: rest) st = validate_things E V rest st'.
Proof.
  intros Hbefore Htruthy Hcompile st'.
  assert (Hload : loadCollection E V thing info st = Ok (None, st')).
  { unfold before_compile in Hbefore. unfold loadCollection, validateCollection.
    destruct (checkDirAccess _ _); simpl in *; [|done].
    destruct (loadThingsData E V _ info _) as [thingsData st2]; simpl in *.
    destruct (checkFileAccess _ _); simpl in *; [|done].
    injection Hbefore as Hbefore. rewrite Hbefore. rewrite Htruthy. simpl.
    unfold checkJsonSchema. rewrite Hcompile. done. }
  split; [done|]. subst st'. log_simpl.
  repeat split; try done.
  - unfold before_compile in Hbefore.
    destruct (checkDirAccess _ _); simpl in *; [|done].
    destruct (checkFileAccess _ _); simpl in *; [|done].
    injection Hbefore as Hbefore.
    apply (f_equal (fun r => collections r.2)) in Hbefore. simpl in Hbefore.
    rewrite <- Hbefore, collections_getDataFromFile, collections_log.
    unfold loadThingsData. by rewrite collections_loadThingsData_files, collections_log.
  - intros rest. cbn [validate_things]. rewrite Hload. done.
Qed.

End SchemaFailure.

(** The sample tree with an ink schema that does not compile. *)
Lemma schema_compile_failure_skips_the_collection_witness :
  let V := Sample.V in
  let st := initial_state (Sample.tree [] ["ink"] Sample.unsorted) in
  let st4 := (Sample.at_compile ["ink"] Sample.unsorted).2 in
  let st' :=
    incr_validation
      (log V (path_join [schemaPath V; "ink" +:+ "_schema.yml"]
              +:+ ": schema file is not a valid JSON Schema" +:+ nl) 0 st4) in
  loadCollection (Sample.env Sample.unsorted) V "ink" None st = Ok (None, st')
  /\ validation (errors st') = (validation (errors st4) + 1)%N
  /\ formatting (errors st') = formatting (errors st4)
  /\ nonFixedFormatting (errors st') = nonFixedFormatting (errors st4)
  /\ collections st' = collections st
  /\ forall rest,
       validate_things (Sample.env Sample.unsorted) V (("ink", None) :: rest) st
       = validate_things (Sample.env Sample.unsorted) V rest st'.
Proof.
  apply (schema_compile_failure_skips_the_collection (Sample.env Sample.unsorted) Sample.V
           "ink" None (initial_state (Sample.tree [] ["ink"] Sample.unsorted))
           (Sample.at_compile ["ink"] Sample.unsorted).1
           (Sample.at_compile ["ink"] Sample.unsorted).2).
  - vm_compute. reflexivity.
  - vm_compute. reflexivity.
  - vm_compute. reflexivity.
Defined.

(** C6, as stated, fails in two ways. With an ink schema that does not
    compile and an ink file whose keys are out of order, the formatting
    check of that file is made all the same: it is counted and the file is
    rewritten. With a type schema that does not compile, the first card
    that passes its schema makes the run throw. *)
Lemma schema_failure_neither_skips_formatting_nor_keeps_running :
  (exists st',
     loadCollection (Sample.env Sample.unsorted) Sample.V "ink" None
       (initial_state (Sample.tree [] ["ink"] Sample.unsorted)) = Ok (None, st')
     /\ errors st' = mkErrors 1 1 0
     /\ Obj.get "/repo/data/inks/amber.yml" (fs st') = Some (File true true Sample.amber_text))
  /\ main (Sample.env Sample.with_cards) Sample.root
       (Sample.tree [] ["type"] Sample.with_cards) = Throw TypeError.
Proof.
  split.
  - eexists. split; [vm_compute; reflexivity|]. split; vm_compute; reflexivity.
  - vm_compute. reflexivity.
Qed.

(** A run with a locale pass: the ink file of the base is out of
    canonical order and is repaired, the locale [es] translates an ink the
    base does not have. The base pass counts one formatting error, the locale
    pass one validation error, and the run exits with 1. And a run that the
    missing directory of a locale ends. *)
Lemma exit_code_zero_iff_run_completes_without_errors_witness :
  let E := Sample.env Sample.unsorted_and_stray in
  let files := Sample.tree ["es"] [] Sample.unsorted_and_stray in
  let st := Sample.after_main ["es"] [] Sample.unsorted_and_stray in
  (exists base passes st1,
     ValidatorBase_validate E (main_validator Sample.root) (initial_state files) = Ok base
     /\ Validator_validate E (main_validator Sample.root) (initial_state files)
        = Ok (passes, st1)
     /\ formatting (errors st) = (formatting (errors base) + total formatting passes)%N
     /\ validation (errors st) = (validation (errors base) + total validation passes)%N
     /\ (1 = 0 <->
         (formatting (errors base) + total formatting passes
          + (validation (errors base) + total validation passes) = 0)%N))
  /\ (let st1 := (getDataFromFile E Sample.V "/repo/data/inks/amber.yml"
                    (initial_state files)).2 in
      fs st1 = Obj.replace "/repo/data/inks/amber.yml" (File true true Sample.amber_text) files
      /\ formatting (errors st1) = (formatting (errors (initial_state files)) + 1)%N
      /\ nonFixedFormatting (errors st1) = nonFixedFormatting (errors (initial_state files)))
  /\ exit_code (main (Sample.env Sample.untranslated) Sample.root
                  (Sample.tree [] [] Sample.untranslated)) = 1.
Proof.
  intros E files st.
  destruct (exit_code_zero_iff_run_completes_without_errors E Sample.root files)
    as (_ & _ & Hrun & Hfile).
  split; [|split]; cycle 2.
  - destruct (exit_code_zero_iff_run_completes_without_errors
                (Sample.env Sample.untranslated) Sample.root
                (Sample.tree [] [] Sample.untranslated)) as (_ & Habort & _).
    apply (Habort (ValidationError "/repo/data/translations/es is not a valid path")).
    vm_compute. reflexivity.
  - apply (Hrun 1 st). vm_compute. reflexivity.
  - apply (Hfile Sample.V "/repo/data/inks/amber.yml" (initial_state files)
             Sample.amber_unsorted_text Sample.amber Sample.amber_text).
    + vm_compute. reflexivity.
    + vm_compute. reflexivity.
    + vm_compute. reflexivity.
    + vm_compute. discriminate.
    + reflexivity.
    + vm_compute. discriminate.
    + vm_compute. reflexivity.
Defined.

(** The counters of that run, pass by pass, and a clean run with a locale
    pass, which exits with 0. *)
Example exit_codes_of_two_runs :
  (exists st1,
     Validator_validate (Sample.env Sample.unsorted_and_stray) Sample.V
       (initial_state (Sample.tree ["es"] [] Sample.unsorted_and_stray))
     = Ok ([mkErrors 0 1 0], st1)
     /\ errors (Sample.after_base ["es"] [] Sample.unsorted_and_stray) = mkErrors 1 0 0
     /\ errors st1 = mkErrors 1 1 0
     /\ exit_code (main (Sample.env Sample.unsorted_and_stray) Sample.root
                     (Sample.tree ["es"] [] Sample.unsorted_and_stray)) = 1)
  /\ (exists st1,
        Validator_validate (Sample.env Sample.translated) Sample.V
          (initial_state (Sample.tree ["es"] [] Sample.translated))
        = Ok ([no_errors], st1)
        /\ errors st1 = no_errors
        /\ exit_code (main (Sample.env Sample.translated) Sample.root
                        (Sample.tree ["es"] [] Sample.translated)) = 0).
Proof.
  split; eexists; (split; [vm_compute; reflexivity|]); repeat split; vm_compute; reflexivity.
Qed.

(** C3, as stated, fails on a run that does not complete. The set of the
    tree lists the locale [es] and the tree has no directory
    [translations/es]: the base pass returns with all its counters at zero,
    the validator of the locale throws in its first check, before it has
    counted anything, the exception escapes [main], and the process exits
    with 1. *)
Lemma aborted_run_exits_with_one_and_no_error_counted :
  let E := Sample.env Sample.untranslated in
  let files := Sample.tree [] [] Sample.untranslated in
  exists base Vi,
    ValidatorBase_validate E Sample.V (initial_state files) = Ok base
    /\ errors base = no_errors
    /\ locales_of (collections base) = Ok [VStr "es"]
    /\ new_I18NValidator (VStr "es") Sample.root 0 4 true = Ok Vi
    /\ checkDirAccess (fs base) (dataPath Vi)
       = Throw (ValidationError "/repo/data/translations/es is not a valid path")
    /\ main E Sample.root files
       = Throw (ValidationError "/repo/data/translations/es is not a valid path")
    /\ exit_code (main E Sample.root files) = 1
    /\ (formatting (errors base) + validation (errors base) = 0)%N.
Proof.
  intros E files. eexists _, _.
  split; [vm_compute; reflexivity|].
  split; [vm_compute; reflexivity|].
  split; [vm_compute; reflexivity|].
  split; [vm_compute; reflexivity|].
  repeat split; vm_compute; reflexivity.
Qed.

(** A tree with the locale [es] whose ink schema does not compile: the
    locale is there to be validated, and is skipped; and the same tree with
    a schema that compiles, where the locale pass is made. *)
Lemma locales_only_after_clean_base_witness :
  (locales_of (collections (Sample.after_base ["es"] ["ink"] Sample.translated))
   = Ok [VStr "es"]
   /\ exists st',
        Validator_validate (Sample.env Sample.translated) Sample.V
          (initial_state (Sample.tree ["es"] ["ink"] Sample.translated)) = Ok ([], st')
        /\ errors st' = errors (Sample.after_base ["es"] ["ink"] Sample.translated)
        /\ collections st' = collections (Sample.after_base ["es"] ["ink"] Sample.translated)
        /\ fs st' = fs (Sample.after_base ["es"] ["ink"] Sample.translated)
        /\ (0 <= verbose Sample.V -> last (stdout st') = Some skip_notice))
  /\ (Validator_validate (Sample.env Sample.translated) Sample.V
        (initial_state (Sample.tree ["es"] [] Sample.translated))
      = validateLocales (Sample.env Sample.translated) Sample.V
          (Sample.after_base ["es"] [] Sample.translated)
      /\ exists st',
           validateLocales (Sample.env Sample.translated) Sample.V
             (Sample.after_base ["es"] [] Sample.translated) = Ok ([no_errors], st')).
Proof.
  split.
  - split; [vm_compute; reflexivity|].
    apply (locales_only_after_clean_base (Sample.env Sample.translated) Sample.V
             (initial_state (Sample.tree ["es"] ["ink"] Sample.translated))
             (Sample.after_base ["es"] ["ink"] Sample.translated)).
    + vm_compute. reflexivity.
    + vm_compute. discriminate.
  - split.
    + apply (locales_only_after_clean_base (Sample.env Sample.translated) Sample.V
               (initial_state (Sample.tree ["es"] [] Sample.translated))
               (Sample.after_base ["es"] [] Sample.translated)).
      * vm_compute. reflexivity.
      * vm_compute. reflexivity.
    + eexists. vm_compute. reflexivity.
Defined.

(** The counters of the skipped run: the base pass has counted the schema
    that does not compile, and nothing is added. *)
Example skipped_locale_adds_nothing :
  errors (Sample.after_base ["es"] ["ink"] Sample.translated) = mkErrors 0 1 0
  /\ errors (Sample.outcome true ["es"] ["ink"] Sample.translated).2 = mkErrors 0 1 0
  /\ (Sample.outcome true ["es"] ["ink"] Sample.translated).1 = [].
Proof. repeat split; vm_compute; reflexivity. Qed.


(** ** Keyword placeholders *)

(** The examples of C5: a one-character expression is checked as
    intended. *)
Example draw_n_cards :
  customCheckKeyword (Sample.keyword "Draw {n} cards" ["n"]) = Ok []
  /\ customCheckKeyword (Sample.keyword "Draw {n} cards" [])
     = Ok ["Expression {" +:+ c "n" +:+ "} is not defined as arg in keyword " +:+ c "shift"].
Proof. split; vm_compute; reflexivity. Qed.

(** C5 at its failing inputs. [rules.match(re)] returns the matched
    texts, and destructuring one of them binds [expr] to its second
    character: a declared expression of several characters is reported under
    its first character, and an undeclared one passes when its first
    character happens to be an argument. *)
Theorem customCheckKeyword_checks_first_character_only :
  Placeholder.groups "Pay {cost} less" = ["cost"]
  /\ customCheckKeyword (Sample.keyword "Pay {cost} less" ["cost"])
     = Ok ["Expression {" +:+ c "c" +:+ "} is not defined as arg in keyword " +:+ c "shift"]
  /\ Placeholder.groups "Gain {amount} lore" = ["amount"]
  /\ customCheckKeyword (Sample.keyword "Gain {amount} lore" ["a"]) = Ok [].
Proof. repeat split; vm_compute; reflexivity. Qed.

(** ** Locale passes and the base collections *)

(** C7 at its failing inputs. The locale validator is given the object
    that holds the base collections and registers its own records in it.
    After the pass of [es] the ink [amber] of the base is the translated
    record; and an ink [ruby] that only the translations have is reported
    for [es], registered, and then accepted for [fr]. *)
Theorem locale_pass_registers_into_base_collections :
  Obj.get "ink" (collections (Sample.after_base ["es"] [] Sample.translated))
  = Some [("amber", Sample.amber)]
  /\ Obj.get "ink" (collections (Sample.after_main ["es"] [] Sample.translated))
     = Some [("amber", Sample.amber_es)]
  /\ fst <$> match Validator_validate (Sample.env Sample.stray) Sample.V
                     (initial_state (Sample.tree ["es"; "fr"] [] Sample.stray))
             with Ok r => Some r | Throw _ => None end
     = Some [mkErrors 0 1 0; mkErrors 0 0 0]
  /\ Obj.get "ink" (collections (Sample.after_main ["es"; "fr"] [] Sample.stray))
     = Some [("amber", Sample.amber); ("ruby", Sample.ruby_es)].
Proof. repeat split; vm_compute; reflexivity. Qed.

(** ** The order of merged printings *)

Lemma pick_code_flavor_has_no_position p :
  get_prop (UpdateLocales.pick ["code"; "flavor"] p) "position" = Ok VUndef.
Proof.
  destruct p; try done. simpl.
  destruct (Obj.get "code" fields); destruct (Obj.get "flavor" fields); simpl;
    by rewrite ?ObjFacts.get_set_ne.
Qed.

(** C9 at its failing input. [loadPrintings] keeps [code] and [flavor]
    only and [sortBy] is given no iteratee, so the merged list of a base
    file whose printings are at positions 2, 1 stays in the order of the
    file; with codes that are array indices it is in the order of the
    codes. In neither case does [position] play a part. *)
Theorem mergeLists_keeps_key_order :
  UpdateLocales.mergeLists
    (UpdateLocales.loadPrintings
       [("printings/tfc.yml", VArr [Sample.printing "TFC-002" 2; Sample.printing "TFC-001" 1])])
    (UpdateLocales.loadPrintings [])
  = [("printings/tfc.yml",
      [VObj [("code", VStr "TFC-002"); ("flavor", VStr "Flavor of TFC-002")];
       VObj [("code", VStr "TFC-001"); ("flavor", VStr "Flavor of TFC-001")]])]
  /\ UpdateLocales.mergeLists
       (UpdateLocales.loadPrintings
          [("printings/tfc.yml", VArr [Sample.printing "1" 2; Sample.printing "2" 1])])
       (UpdateLocales.loadPrintings [])
     = [("printings/tfc.yml",
         [VObj [("code", VStr "1"); ("flavor", VStr "Flavor of 1")];
          VObj [("code", VStr "2"); ("flavor", VStr "Flavor of 2")]])].
Proof. split; vm_compute; reflexivity. Qed.

(** *** What the keyword rule checks in general *)

Lemma match_at_nonempty s g : Placeholder.match_at s = Some g -> g ≠ [].
Proof.
  destruct s as [|open [|ch r]]; simpl; try done.
  destruct (bool_decide (open = "{"%char) && negb (Placeholder.line_terminator ch)); [|done].
  destruct (Placeholder.close r); simpl; [|done]. by intros [= <-].
Qed.

Lemma scan_nonempty s : forall skip, Forall (fun g => g ≠ []) (Placeholder.scan skip s).
Proof.
  induction s as [|ch r IH]; intros skip; cbn [Placeholder.scan]; [constructor|].
  destruct skip as [|k]; [|apply IH].
  destruct (Placeholder.match_at (ch :: r)) as [g|] eqn:Hm; [|apply IH].
  constructor; [by eapply match_at_nonempty | apply IH].
Qed.

Lemma groups_nonempty rules : Forall (fun g => g ≠ EmptyString) (Placeholder.groups rules).
Proof.
  unfold Placeholder.groups. apply Forall_map.
  eapply Forall_impl; [apply scan_nonempty|].
  intros [|ch r] Hne; [done|]. discriminate.
Qed.

Lemma lodash_includes_args args x :
  lodash_includes (js_or (VArr (map VStr args)) (VArr [])) x = bool_decide (x ∈ args).
Proof.
  unfold js_or. cbn [truthy lodash_includes].
  induction args as [|a r IH]; cbn [map existsb].
  - symmetry. apply bool_decide_eq_false. by apply not_elem_of_nil.
  - rewrite IH. change (value_eqb (VStr x) (VStr a)) with (Str.eqb x a). unfold Str.eqb.
    destruct (decide (x = a)) as [->|Hne].
    + rewrite bool_decide_eq_true_2 by done. simpl.
      symmetry. apply bool_decide_eq_true. left.
    + rewrite (bool_decide_eq_false_2 (x = a)) by done. simpl.
      apply bool_decide_ext. rewrite elem_of_cons.
      split; [by right | by intros [?|?]].
Qed.

Lemma flat_map_map_Forall {A B C : Type} (P : A -> Prop) (f : B -> list C) (g : A -> B)
    (h : A -> list C) (l : list A) :
  Forall P l -> (forall x, P x -> f (g x) = h x) ->
  flat_map f (map g l) = flat_map h l.
Proof.
  intros Hall Hfg. induction Hall as [|x r Hx _ IH]; simpl; [done|].
  by rewrite IH, Hfg.
Qed.

(** For a keyword with a string [rules] and a list of strings [args], the
    rule reports the first character of every placeholder expression that
    is not an argument, and nothing else. *)
Lemma customCheckKeyword_spec code rules args :
  customCheckKeyword
    (VObj [("code", VStr code); ("rules", VStr rules); ("args", VArr (map VStr args))])
  = Ok (flat_map
          (fun g =>
             if bool_decide (first_character g ∈ args) then []
             else ["Expression {" +:+ c (first_character g)
                   +:+ "} is not defined as arg in keyword " +:+ c code])
          (Placeholder.groups rules)).
Proof.
  unfold customCheckKeyword.
  change (get_prop _ "rules") with (Ok (VStr rules)).
  change (get_prop _ "args") with (Ok (VArr (map VStr args))).
  change (get_prop _ "code") with (Ok (VStr code)).
  cbn [res_bind to_string]. unfold Placeholder.test, Placeholder.matches.
  assert (Hflat :
    flat_map
      (fun m =>
         let expr := Placeholder.second m in
         if lodash_includes (js_or (VArr (map VStr args)) (VArr [])) (to_string expr)
         then []
         else ["Expression {" +:+ c (to_string expr)
               +:+ "} is not defined as arg in keyword " +:+ c code])
      (map (fun g => "{" +:+ g +:+ "}") (Placeholder.groups rules))
    = flat_map
        (fun g =>
           if bool_decide (first_character g ∈ args) then []
           else ["Expression {" +:+ c (first_character g)
                 +:+ "} is not defined as arg in keyword " +:+ c code])
        (Placeholder.groups rules)).
  { apply (flat_map_map_Forall _ _ _ _ _ (groups_nonempty rules)).
    intros [|ch r] Hne; [done|]. cbv zeta.
    change (Placeholder.second ("{" +:+ String ch r +:+ "}"))
      with (VStr (first_character (String ch r))).
    cbn [to_string]. by rewrite lodash_includes_args. }
  destruct (map _ (Placeholder.groups rules)) eqn:Hmatches.
  - apply map_eq_nil in Hmatches. by rewrite Hmatches.
  - by rewrite <- Hflat.
Qed.

(** ** Canonical form: what the script itself contributes

    The canonical text is [yaml.dump] followed by [separate_items], and a
    file is canonical when that text, computed from [yaml.load] of the file,
    is the file. Neither of the two steps the script adds to the library is
    idempotent by itself. *)

Section Audit.
Context (E : Env).

(** A file whose text is its canonical text is left alone: nothing is
    counted and nothing is written. *)
Lemma getDataFromFile_canonical_is_clean V filepath st data json :
  readFileSync (fs st) filepath = Some data ->
  yaml_load E data = Some json ->
  formatYaml E json (profile filepath) = Some data ->
  (getDataFromFile E V filepath st).1 = json
  /\ errors (getDataFromFile E V filepath st).2 = errors st
  /\ fs (getDataFromFile E V filepath st).2 = fs st.
Proof.
  intros Hread Hload Hfmt. unfold getDataFromFile.
  rewrite Hread, Hload. cbv zeta. rewrite Hfmt, ObjFacts.eqb_refl.
  cbn [fst snd]. by rewrite errors_log, fs_log.
Qed.

End Audit.

Example separate_items_again :
  separate_items ["code: a"; "- b"] = ["code: a"; ""; "- b"]
  /\ separate_items (separate_items ["code: a"; "- b"]) = ["code: a"; ""; ""; "- b"].
Proof. split; reflexivity. Qed.

Lemma replacer_text_again s :
  replacer_text "text" (replacer_text "text" (VStr s)) = VStr ("***" +:+ "***" +:+ s).
Proof. reflexivity. Qed.

Lemma sortKeys_unlisted a b :
  includes_str keysort a = false -> sortKeys_keysort a b = 0.
Proof. intros H. unfold sortKeys_keysort. by rewrite H. Qed.

(** * Further properties *)

(** ** What a run does to the counters, the output and the files *)

Lemma counts_grow_refl e : counts_grow e e.
Proof. unfold counts_grow. lia. Qed.

Lemma counts_grow_trans e1 e2 e3 :
  counts_grow e1 e2 -> counts_grow e2 e3 -> counts_grow e1 e3.
Proof. unfold counts_grow. lia. Qed.

Lemma advances_refl V st : advances V st st.
Proof. repeat split; [apply counts_grow_refl..|done]. Qed.

Lemma advances_trans V st1 st2 st3 :
  advances V st1 st2 -> advances V st2 st3 -> advances V st1 st3.
Proof.
  intros (Hc1 & Hp1 & Hk1 & Hf1) (Hc2 & Hp2 & Hk2 & Hf2). repeat split.
  1-4: by destruct (counts_grow_trans _ _ _ Hc1 Hc2) as (? & ? & ? & ?).
  - by etrans.
  - congruence.
  - intros Hno. rewrite Hf2, Hf1; done.
Qed.

Lemma stdout_log_prefix V text lvl st : stdout st `prefix_of` stdout (log V text lvl st).
Proof.
  unfold log. destruct (verbose V >=? lvl); [|done].
  simpl. by apply prefix_app_r.
Qed.

Lemma advances_log V text lvl st : advances V st (log V text lvl st).
Proof.
  split; [rewrite errors_log; apply counts_grow_refl|].
  split; [apply stdout_log_prefix|]. rewrite fs_log. done.
Qed.

Lemma advances_incr_validation V st : advances V st (incr_validation st).
Proof. repeat split; simpl; try done; lia. Qed.

Lemma advances_incr_formatting V st : advances V st (incr_formatting st).
Proof. repeat split; simpl; try done; lia. Qed.

Lemma advances_set_collections V cs st : advances V st (set_collections cs st).
Proof. repeat split; simpl; try done; lia. Qed.

Lemma keys_replace {A} k (v : A) (o : jsobj A) : Obj.keys (Obj.replace k v o) = Obj.keys o.
Proof.
  induction o as [|[k0 v0] r IH]; simpl; [done|].
  destruct (Str.eqb k k0); simpl; [done|]. by rewrite IH.
Qed.

(** Only a path that does not end with a separator leads to a file. *)
Lemma node_at_file files path r w text :
  node_at files path = Some (File r w text) -> Obj.get path files = Some (File r w text).
Proof.
  unfold node_at. destruct (Str.endsWith "/" path); [|done].
  by repeat case_match.
Qed.

Lemma keys_writeFileSync files path data files' :
  writeFileSync files path data = Some files' -> Obj.keys files' = Obj.keys files.
Proof.
  unfold writeFileSync. intros H.
  repeat case_match; try done. injection H as <-. apply keys_replace.
Qed.

Lemma prefix_log_trans V text lvl st (l : list string) :
  l `prefix_of` stdout st -> l `prefix_of` stdout (log V text lvl st).
Proof. intros H. etrans; [exact H | apply stdout_log_prefix]. Qed.

Ltac state_simpl :=
  repeat (rewrite ?errors_log, ?fs_log;
          cbn [errors fs stdout incr_formatting incr_validation incr_nonFixedFormatting
               set_errors set_fs set_collections formatting validation
               nonFixedFormatting fst snd]).

Ltac prefix_step :=
  repeat (cbn [stdout incr_formatting incr_validation incr_nonFixedFormatting
               set_errors set_fs set_collections fst snd];
          try apply prefix_log_trans);
  reflexivity.

(** Closes [advances V st st'] when [st'] is [st] under logs and
    increments other than a lone [incr_nonFixedFormatting]. *)
Ltac state_step :=
  split; [unfold counts_grow; state_simpl; lia|];
  split; [prefix_step|];
  split; [state_simpl; done|];
  intros _; state_simpl; done.

Section Steps.
Context (E : Env).

Lemma advances_getDataFromFile V filepath st :
  advances V st (getDataFromFile E V filepath st).2.
Proof.
  unfold getDataFromFile, not_yaml.
  destruct (readFileSync (fs st) filepath) as [data|]; [|state_step].
  destruct (yaml_load E data) as [json|]; [|state_step].
  cbv zeta.
  destruct (formatYaml E json (profile filepath)) as [formattedData|]; [|state_step].
  destruct (Str.eqb formattedData data); [state_step|].
  destruct (fixFormatting V) eqn:Hfix; cbn [andb]; [|state_step].
  destruct (truthy (VStr formattedData) && (0 <? Z.of_nat (String.length formattedData)));
    [|state_step].
  destruct (writeFileSync _ _ _) as [fs'|] eqn:Hw; [|state_step].
  apply keys_writeFileSync in Hw. revert Hw. state_simpl. intros Hw.
  split; [unfold counts_grow; state_simpl; lia|].
  split; [prefix_step|]. split; [state_simpl; done|]. congruence.
Qed.

Lemma advances_loadThingsData_files V thingPath info files collection st :
  advances V st (loadThingsData_files E V thingPath info files collection st).2.
Proof.
  revert collection st. induction files as [|file rest IH]; intros collection st; simpl.
  - apply advances_refl.
  - pose proof (advances_getDataFromFile V (path_join [thingPath; file]) st) as Hget.
    destruct (getDataFromFile E V (path_join [thingPath; file]) st) as [json st1].
    eapply advances_trans; [exact Hget | apply IH].
Qed.

Lemma advances_validateSchema V thing thingData check st valid st' :
  validateSchema V thing thingData check st = Ok (valid, st') -> advances V st st'.
Proof.
  unfold validateSchema.
  destruct (get_prop thingData "code") as [code|]; simpl; [|done].
  destruct (check thingData) as [errs|].
  - intros [= <- <-].
    repeat (eapply advances_trans; [|first [apply advances_log | apply advances_incr_validation]]).
    apply advances_refl.
  - destruct (customCheck V _ thing thingData) as [[|e r]|]; simpl; [| |done];
      intros [= <- <-];
      repeat (eapply advances_trans; [|first [apply advances_log | apply advances_incr_validation]]);
      apply advances_refl.
Qed.

Lemma advances_validateCollection_items V thing check items retVal st ok st' :
  validateCollection_items V thing check items retVal st = Ok (ok, st') -> advances V st st'.
Proof.
  revert retVal st. induction items as [|item rest IH]; intros retVal st; simpl.
  - intros [= <- <-]. apply advances_refl.
  - destruct (validateSchema V thing item check st) as [[valid st1]|] eqn:Hv; simpl; [|done].
    intros Hrest. eapply advances_trans; [by eapply advances_validateSchema | by eapply IH].
Qed.

Lemma advances_validateCollection V thing items st ok st' :
  validateCollection E V thing items st = Ok (ok, st') -> advances V st st'.
Proof.
  unfold validateCollection.
  destruct (checkFileAccess _ _); simpl; [|done].
  pose proof (advances_getDataFromFile V (path_join [schemaPath V; thing +:+ "_schema.yml"])
                (log V ("Validating collection of " +:+ c (plural thing) +:+ nl) 1 st)) as Hget.
  destruct (getDataFromFile E V _ _) as [schemaData st2].
  assert (Hst2 : advances V st st2)
    by (eapply advances_trans; [apply advances_log | exact Hget]).
  destruct (truthy schemaData); simpl.
  - unfold checkJsonSchema. destruct (ajv_compile E schemaData) as [check|].
    + intros Hitems. eapply advances_trans; [exact Hst2|].
      by eapply advances_validateCollection_items.
    + intros [= <- <-]. eapply advances_trans; [exact Hst2|].
      eapply advances_trans; [apply advances_log | apply advances_incr_validation].
  - by intros [= <- <-].
Qed.

Lemma advances_loadCollection V thing info st r st' :
  loadCollection E V thing info st = Ok (r, st') -> advances V st st'.
Proof.
  unfold loadCollection.
  destruct (checkDirAccess _ _); simpl; [|done].
  unfold loadThingsData.
  pose proof (advances_loadThingsData_files V (path_join [dataPath V; plural thing]) info
                (glob_sync E (path_join [dataPath V; plural thing])) []
                (log V ("Loading collection of " +:+ c (plural thing) +:+ "..." +:+ nl) 1 st))
    as Hload.
  destruct (loadThingsData_files E V _ info _ [] _) as [thingsData st2].
  destruct (validateCollection E V thing thingsData st2) as [[ok st3]|] eqn:Hv; simpl; [|done].
  intros Hr.
  assert (st' = st3) as -> by (destruct ok; congruence).
  eapply advances_trans; [apply advances_log|].
  eapply advances_trans; [exact Hload | by eapply advances_validateCollection].
Qed.

Lemma advances_validate_things V l st st' :
  validate_things E V l st = Ok st' -> advances V st st'.
Proof.
  revert st. induction l as [|[thing info] rest IH]; intros st; simpl.
  - intros [= <-]. apply advances_refl.
  - destruct (loadCollection E V thing info st) as [[r st1]|] eqn:Hl; simpl; [|done].
    apply advances_loadCollection in Hl.
    destruct r as [items|]; simpl.
    + destruct (loadCollections thing items (collections st1)) as [cs|]; simpl; [|done].
      intros Hrest. eapply advances_trans; [exact Hl|].
      eapply advances_trans; [apply (advances_set_collections V cs) | by apply IH].
    + intros Hrest. eapply advances_trans; [exact Hl | by apply IH].
Qed.

Lemma advances_ValidatorBase_validate V st st' :
  ValidatorBase_validate E V st = Ok st' -> advances V st st'.
Proof.
  unfold ValidatorBase_validate.
  destruct (checkDirAccess (fs st) (dataPath V)); cbn [res_bind]; [|done].
  destruct (checkDirAccess (fs st) (schemaPath V)); cbn [res_bind]; [|done].
  intros H. apply advances_validate_things in H.
  eapply advances_trans; [apply advances_log | exact H].
Qed.

Lemma fixFormatting_I18N l basePath' verbose' indent' repair Vi :
  new_I18NValidator l basePath' verbose' indent' repair = Ok Vi -> fixFormatting Vi = repair.
Proof. destruct l; try done. by intros [= <-]. Qed.

Lemma advances_validateLocales_loop V locales st passes st' :
  validateLocales_loop E V locales st = Ok (passes, st') -> advances V st st'.
Proof.
  revert st passes st'. induction locales as [|l rest IH]; intros st passes st'; simpl.
  - intros [= <- <-]. apply advances_refl.
  - destruct (new_I18NValidator l _ _ _ _) as [Vi|] eqn:HVi; simpl; [|done].
    apply fixFormatting_I18N in HVi.
    destruct (ValidatorBase_validate E Vi _) as [sti|] eqn:Hi; simpl; [|done].
    apply advances_ValidatorBase_validate in Hi as (Hc & Hp & Hk & Hf). simpl in *.
    destruct (validateLocales_loop E V rest _) as [[more st'']|] eqn:Hrest; simpl; [|done].
    intros [= <- <-]. apply IH in Hrest.
    eapply advances_trans; [|exact Hrest].
    repeat split; simpl; try done.
    1-4: unfold counts_grow in Hc; simpl in Hc; lia.
    intros Hno. apply Hf. congruence.
Qed.

Lemma advances_Validator_validate V st passes st' :
  Validator_validate E V st = Ok (passes, st') -> advances V st st'.
Proof.
  unfold Validator_validate.
  destruct (ValidatorBase_validate E V st) as [st1|] eqn:Hbase; simpl; [|done].
  apply advances_ValidatorBase_validate in Hbase.
  destruct (validation (errors st1) =? 0)%N.
  - unfold validateLocales.
    destruct (locales_of (collections st1)) as [locales|]; simpl; [|done].
    intros H. eapply advances_trans; [exact Hbase | by eapply advances_validateLocales_loop].
  - intros [= <- <-]. eapply advances_trans; [exact Hbase | apply advances_log].
Qed.

End Steps.

Section RunInvariants.
Context (E : Env).

(** X1: over a whole run, base pass and locale passes, no counter ever
    decreases, and [nonFixedFormatting] never exceeds [formatting] if it did
    not at the start. *)
Theorem run_counters_only_grow V st passes st' :
  Validator_validate E V st = Ok (passes, st') ->
  (formatting (errors st) <= formatting (errors st'))%N
  /\ (validation (errors st) <= validation (errors st'))%N
  /\ (nonFixedFormatting (errors st) <= nonFixedFormatting (errors st'))%N
  /\ ((nonFixedFormatting (errors st) <= formatting (errors st))%N ->
      (nonFixedFormatting (errors st') <= formatting (errors st'))%N).
Proof.
  intros H. apply advances_Validator_validate in H as ((Hf & Hv & Hn & Hb) & _).
  repeat split; try done. lia.
Qed.

(** X2: a run only appends to the standard output. *)
Theorem run_only_appends_output V st passes st' :
  Validator_validate E V st = Ok (passes, st') ->
  stdout st `prefix_of` stdout st'.
Proof. intros H. by apply advances_Validator_validate in H as (_ & Hp & _). Qed.



(** X5: a file that cannot be read or parsed contributes no record to
    the collection; it costs one validation error, and the loader goes on
    with the next file. *)
Theorem unparseable_file_contributes_nothing V thingPath info file rest collection st :
  (readFileSync (fs st) (path_join [thingPath; file]) = None
   \/ exists data, readFileSync (fs st) (path_join [thingPath; file]) = Some data
                   /\ yaml_load E data = None) ->
  exists st1,
    loadThingsData_files E V thingPath info (file :: rest) collection st
    = loadThingsData_files E V thingPath info rest collection st1
    /\ errors st1 = mkErrors (formatting (errors st)) (validation (errors st) + 1)
                      (nonFixedFormatting (errors st))
    /\ fs st1 = fs st
    /\ collections st1 = collections st.
Proof.
  intros Hfail. cbn [loadThingsData_files]. unfold getDataFromFile.
  destruct Hfail as [Hread | (data & Hread & Hload)]; rewrite Hread; [|rewrite Hload];
    unfold not_yaml; eexists; (split; [by rewrite app_nil_r|]);
    log_simpl; done.
Qed.

(** X6: auditing a file changes no other file, and the audited file
    either stays as it is or, being writable and not in canonical form,
    gets its canonical text. *)
Theorem audit_touches_only_its_file V filepath st :
  let st' := (getDataFromFile E V filepath st).2 in
  (forall other, other ≠ filepath -> Obj.get other (fs st') = Obj.get other (fs st))
  /\ (fs st' = fs st
      \/ exists data json canonical r,
           readFileSync (fs st) filepath = Some data
           /\ yaml_load E data = Some json
           /\ formatYaml E json (profile filepath) = Some canonical
           /\ canonical ≠ data
           /\ Obj.get filepath (fs st') = Some (File r true canonical)).
Proof.
  cbv zeta. unfold getDataFromFile, not_yaml.
  destruct (readFileSync (fs st) filepath) as [data|] eqn:Hread;
    [|log_simpl; split; [done | by left]].
  destruct (yaml_load E data) as [json|] eqn:Hload;
    [|log_simpl; split; [done | by left]].
  destruct (formatYaml E json (profile filepath)) as [canonical|] eqn:Hfmt;
    [|log_simpl; split; [done | by left]].
  destruct (Str.eqb canonical data) eqn:Heq; [log_simpl; split; [done | by left]|].
  destruct (fixFormatting V && truthy (VStr canonical)
            && (0 <? Z.of_nat (String.length canonical)));
    [|log_simpl; split; [done | by left]].
  rewrite fs_log. cbn [incr_formatting set_errors fs]. rewrite !fs_log.
  destruct (writeFileSync (fs st) filepath canonical) as [fs'|] eqn:Hw;
    [|log_simpl; split; [done | by left]].
  cbn [snd set_fs fs]. unfold writeFileSync in Hw.
  destruct (node_at (fs st) filepath) as [[|r [|] text]|] eqn:Hnode; try done.
  apply node_at_file in Hnode.
  injection Hw as <-. split.
  - intros other Hne. by rewrite ObjFacts.get_replace, ObjFacts.eqb_ne.
  - right. exists data, json, canonical, r. repeat split; try done.
    + intros ->. by rewrite ObjFacts.eqb_refl in Heq.
    + by rewrite ObjFacts.get_replace, ObjFacts.eqb_refl, Hnode.
Qed.

End RunInvariants.

(** The sample run that repairs one ink file. *)
Lemma run_counters_only_grow_witness :
  let st := initial_state (Sample.tree [] [] Sample.unsorted) in
  let st' := (Sample.outcome true [] [] Sample.unsorted).2 in
  (formatting (errors st) <= formatting (errors st'))%N
  /\ (validation (errors st) <= validation (errors st'))%N
  /\ (nonFixedFormatting (errors st) <= nonFixedFormatting (errors st'))%N
  /\ ((nonFixedFormatting (errors st) <= formatting (errors st))%N ->
      (nonFixedFormatting (errors st') <= formatting (errors st'))%N).
Proof.
  apply (run_counters_only_grow (Sample.env Sample.unsorted) (Sample.validator_with true)
           (initial_state (Sample.tree [] [] Sample.unsorted))
           (Sample.outcome true [] [] Sample.unsorted).1
           (Sample.outcome true [] [] Sample.unsorted).2).
  vm_compute. reflexivity.
Defined.

(** The sample run with one locale. *)
Lemma run_only_appends_output_witness :
  stdout (initial_state (Sample.tree ["es"] [] Sample.translated))
    `prefix_of` stdout (Sample.outcome true ["es"] [] Sample.translated).2.
Proof.
  apply (run_only_appends_output (Sample.env Sample.translated) (Sample.validator_with true)
           (initial_state (Sample.tree ["es"] [] Sample.translated))
           (Sample.outcome true ["es"] [] Sample.translated).1
           (Sample.outcome true ["es"] [] Sample.translated).2).
  vm_compute. reflexivity.
Defined.



(** An ink file with an unclosed bracket, followed by a good one. *)
Lemma unparseable_file_contributes_nothing_witness :
  let E := Sample.env Sample.garbled in
  let st := initial_state (Sample.tree [] [] Sample.garbled) in
  exists st1,
    loadThingsData_files E Sample.V "/repo/data/inks" None ["amber.yml"; "ruby.yml"] [] st
    = loadThingsData_files E Sample.V "/repo/data/inks" None ["ruby.yml"] [] st1
    /\ errors st1 = mkErrors (formatting (errors st)) (validation (errors st) + 1)
                      (nonFixedFormatting (errors st))
    /\ fs st1 = fs st
    /\ collections st1 = collections st.
Proof.
  apply (unparseable_file_contributes_nothing (Sample.env Sample.garbled) Sample.V
           "/repo/data/inks" None "amber.yml" ["ruby.yml"] []
           (initial_state (Sample.tree [] [] Sample.garbled))).
  right. exists "code: [amber". split; vm_compute; reflexivity.
Defined.

(** ** Business rules *)

Lemma length_flat_map_unless {A B} (P : A -> bool) (f : A -> B) (l : list A) :
  length (flat_map (fun x => if P x then [] else [f x]) l)
  = length (List.filter (fun x => negb (P x)) l).
Proof.
  induction l as [|x r IH]; simpl; [done|].
  destruct (P x); simpl; by rewrite IH.
Qed.

Lemma flat_map_unless_nil {A B} (P : A -> bool) (f : A -> B) (l : list A) :
  flat_map (fun x => if P x then [] else [f x]) l = [] <-> forallb P l = true.
Proof.
  induction l as [|x r IH]; simpl; [done|].
  destruct (P x); simpl; [exact IH|]. split; discriminate.
Qed.

(** X7: the character rule is a presence check: a card of type character
    gets one violation for each of [version], [strength], [willpower],
    [lore] it has no field for, whatever the values of the fields it has,
    and none exactly when all four are there. *)
Theorem character_rule_counts_absent_attributes fields :
  exists errs,
    customCheckCardCharacter (VObj fields) = Ok errs
    /\ length errs = missing_attributes fields
    /\ (errs = [] <->
        forallb (fun k => Obj.has k fields) ["version"; "strength"; "willpower"; "lore"] = true).
Proof.
  eexists. split; [reflexivity|]. split.
  - apply (length_flat_map_unless (fun k => Obj.has k fields)).
  - apply (flat_map_unless_nil (fun k => Obj.has k fields)).
Qed.

Lemma check_codes_registered cs name label code o codes :
  Obj.get name cs = Some o ->
  exists errs, check_codes cs name label code codes = Ok errs
               /\ length errs = unresolved o codes.
Proof.
  intros Hget. unfold unresolved. induction codes as [|k rest (errs & Hrest & Hlen)]; simpl.
  - by exists [].
  - unfold lookup_in at 1. rewrite Hget. simpl. rewrite Hrest. simpl.
    eexists. split; [reflexivity|].
    rewrite length_app, Hlen. by destruct (resolves k o).
Qed.

(** What the card rule does when the four collections are registered:
    it collects the violations of the references, adds those of the
    character rule for a card of type character, and does not return for a
    card whose [type] gives no method suffix. *)
Lemma customCheckCard_registered cs fields types inks kws trs keyword_codes trait_codes :
  Obj.get "type" cs = Some types ->
  Obj.get "ink" cs = Some inks ->
  Obj.get "keyword" cs = Some kws ->
  Obj.get "trait" cs = Some trs ->
  iterate (js_or (field fields "keywords") (VArr [])) = Ok keyword_codes ->
  iterate (js_or (field fields "traits") (VArr [])) = Ok trait_codes ->
  exists validations cerrs,
    length cerrs = missing_attributes fields
    /\ customCheckCard cs (VObj fields)
       = (if Str.eqb (Str.upperFirst (lodash_toString (field fields "type"))) "Character"
          then Ok (validations ++ cerrs)
          else if Str.eqb (Str.upperFirst (lodash_toString (field fields "type"))) EmptyString
               then Throw RangeError
               else Ok validations)
    /\ length validations
       = ((if truthy (field fields "type") && negb (resolves (field fields "type") types)
           then 1 else 0)
          + (if truthy (field fields "ink") && negb (resolves (field fields "ink") inks)
             then 1 else 0)
          + unresolved kws keyword_codes + unresolved trs trait_codes)%nat.
Proof.
  intros Htypes Hinks Hkws Htrs Hk Ht.
  destruct (check_codes_registered cs "keyword" "Keyword" (field fields "code") kws
              keyword_codes Hkws) as (kerrs & Hkerrs & Hklen).
  destruct (check_codes_registered cs "trait" "Trait" (field fields "code") trs
              trait_codes Htrs) as (terrs & Hterrs & Htlen).
  unfold customCheckCard. cbn [get_prop res_bind].
  change (default VUndef (Obj.get "type" fields)) with (field fields "type").
  change (default VUndef (Obj.get "ink" fields)) with (field fields "ink").
  change (default VUndef (Obj.get "keywords" fields)) with (field fields "keywords").
  change (default VUndef (Obj.get "traits" fields)) with (field fields "traits").
  change (default VUndef (Obj.get "code" fields)) with (field fields "code").
  assert (Htype : (if truthy (field fields "type")
                   then lookup_in cs "type" (field fields "type") else Ok true)
                  = Ok (if truthy (field fields "type")
                        then resolves (field fields "type") types else true))
    by (unfold lookup_in; rewrite Htypes; by destruct (truthy (field fields "type"))).
  assert (Hink : (if truthy (field fields "ink")
                  then lookup_in cs "ink" (field fields "ink") else Ok true)
                 = Ok (if truthy (field fields "ink")
                       then resolves (field fields "ink") inks else true))
    by (unfold lookup_in; rewrite Hinks; by destruct (truthy (field fields "ink"))).
  rewrite Htype. cbn [res_bind]. rewrite Hink. cbn [res_bind]. rewrite Hk. cbn [res_bind].
  rewrite Hkerrs. cbn [res_bind]. rewrite Ht. cbn [res_bind]. rewrite Hterrs. cbn [res_bind].
  exists ((if truthy (field fields "type")
              && negb (if truthy (field fields "type")
                       then resolves (field fields "type") types else true)
           then ["Type code '" +:+ to_string (field fields "type")
                 +:+ "' does not exists in set '"
                 +:+ c (to_string (field fields "code")) +:+ "'"] else [])
          ++ (if truthy (field fields "ink")
                 && negb (if truthy (field fields "ink")
                          then resolves (field fields "ink") inks else true)
              then ["Ink code '" +:+ to_string (field fields "ink")
                    +:+ "' does not exists in set '"
                    +:+ c (to_string (field fields "code")) +:+ "'"] else [])
          ++ kerrs ++ terrs).
  eexists. split; [|split]; cycle 1.
  - reflexivity.
  - rewrite !length_app, Hklen, Htlen.
    destruct (truthy (field fields "type")), (resolves (field fields "type") types),
      (truthy (field fields "ink")), (resolves (field fields "ink") inks); simpl; lia.
  - apply (length_flat_map_unless (fun k => Obj.has k fields)).
Qed.

(** X8: with the four referenced collections registered, a card whose
    [keywords] and [traits] can be iterated and whose [type] gives a method
    suffix (converted to a string it is not empty, as it is when the type is
    absent, [null] or the empty string) gets exactly one violation for each
    reference that does not resolve ([type], [ink], every keyword, every
    trait), plus, for type character, one for each absent attribute. For a
    card whose [type] gives no suffix the method named [customCheckCard]
    plus the suffix is [customCheckCard] itself: the rule calls itself
    without end and a [RangeError] is thrown. *)
Theorem card_rule_one_violation_per_broken_reference cs fields types inks kws trs
    keyword_codes trait_codes :
  Obj.get "type" cs = Some types ->
  Obj.get "ink" cs = Some inks ->
  Obj.get "keyword" cs = Some kws ->
  Obj.get "trait" cs = Some trs ->
  iterate (js_or (field fields "keywords") (VArr [])) = Ok keyword_codes ->
  iterate (js_or (field fields "traits") (VArr [])) = Ok trait_codes ->
  exists errs,
    customCheckCard cs (VObj fields)
    = (if Str.eqb (Str.upperFirst (lodash_toString (field fields "type"))) EmptyString
       then Throw RangeError
       else Ok errs)
    /\ length errs
       = ((if truthy (field fields "type") && negb (resolves (field fields "type") types)
           then 1 else 0)
          + (if truthy (field fields "ink") && negb (resolves (field fields "ink") inks)
             then 1 else 0)
          + unresolved kws keyword_codes
          + unresolved trs trait_codes
          + (if Str.eqb (Str.upperFirst (lodash_toString (field fields "type"))) "Character"
             then missing_attributes fields else 0))%nat.
Proof.
  intros Htypes Hinks Hkws Htrs Hk Ht.
  destruct (customCheckCard_registered cs fields types inks kws trs keyword_codes
              trait_codes Htypes Hinks Hkws Htrs Hk Ht)
    as (validations & cerrs & Hchar & Hrun & Hlen).
  rewrite Hrun.
  destruct (Str.eqb (Str.upperFirst (lodash_toString (field fields "type"))) "Character")
    eqn:Hcharacter.
  - apply bool_decide_eq_true in Hcharacter. rewrite Hcharacter.
    exists (validations ++ cerrs). split; [reflexivity|].
    rewrite length_app, Hlen, Hchar. reflexivity.
  - exists validations. split; [reflexivity|]. rewrite Hlen. lia.
Qed.

(** X9: in the base pass a schema-valid set that names a cycle makes
    [validateSchema] throw when no cycle collection is registered; a set
    without a cycle is validated without looking at the collections. *)
Theorem set_rule_dereferences_the_cycle_collection V fields check st :
  locale V = None ->
  check (VObj fields) = None ->
  (truthy (field fields "cycle") = true ->
   Obj.get "cycle" (collections st) = None ->
   validateSchema V "set" (VObj fields) check st = Throw TypeError)
  /\ (truthy (field fields "cycle") = false ->
      exists st', validateSchema V "set" (VObj fields) check st = Ok (true, st')
                  /\ errors st' = errors st).
Proof.
  intros Hbase Hvalid. unfold validateSchema. cbn [get_prop res_bind].
  rewrite Hvalid, collections_log. unfold customCheck. rewrite Hbase.
  change (customCheck_base (collections st) "set" (VObj fields))
    with (customCheckSet (collections st) (VObj fields)).
  unfold customCheckSet. cbn [get_prop res_bind]. fold (field fields "cycle"). split.
  - intros Hcycle Hnone. rewrite Hcycle. unfold lookup_in. by rewrite Hnone.
  - intros Hcycle. rewrite Hcycle. cbn. eexists. split; [reflexivity|].
    by rewrite !errors_log.
Qed.

(** X10: in a locale pass the only business rule is that the code of
    the record is registered under its kind. A record without a (truthy)
    code passes, whatever is registered. For a record with a code, when the
    kind has a registered collection the record passes exactly when its code
    resolves there, and it never gets more than one violation; when the kind
    has no registered collection the check throws a [TypeError]. *)
Theorem overlay_rule_checks_the_code_only cs l thing fields :
  (truthy (field fields "code") = false ->
   customCheck_i18n cs l thing (VObj fields) = Ok [])
  /\ (truthy (field fields "code") = true ->
      Obj.get thing cs = None ->
      customCheck_i18n cs l thing (VObj fields) = Throw TypeError)
  /\ (forall o,
        Obj.get thing cs = Some o ->
        exists errs,
          customCheck_i18n cs l thing (VObj fields) = Ok errs
          /\ (errs = [] <->
              truthy (field fields "code") = false
              \/ resolves (field fields "code") o = true)
          /\ (length errs <= 1)%nat).
Proof.
  unfold customCheck_i18n. cbn [get_prop res_bind]. fold (field fields "code").
  unfold lookup_in. split; [|split].
  - by intros ->.
  - by intros -> ->.
  - intros o ->.
    destruct (truthy (field fields "code")); cbn.
    + destruct (resolves (field fields "code") o); cbn; eexists; (split; [reflexivity|]);
        split; try (simpl; lia); split; try done; try (by right); intros [|]; done.
    + exists []. split; [done|]. split; [|simpl; lia]. split; [by left|done].
Qed.

(** X11: what [validateCollection] returns for the records is whether
    all of them are schema-valid; violations of the business rules are
    counted but do not change it, so such a collection is still registered. *)
Theorem collection_is_valid_iff_every_record_is_schema_valid V thing check items retVal
    st ok st' :
  validateCollection_items V thing check items retVal st = Ok (ok, st') ->
  ok = forallb (schema_valid check) items && retVal.
Proof.
  revert retVal st. induction items as [|item rest IH]; intros retVal st; simpl.
  - by intros [= <- <-].
  - destruct (validateSchema V thing item check st) as [[valid st1]|] eqn:Hv; simpl; [|done].
    intros Hrest. apply IH in Hrest as ->.
    assert (valid = schema_valid check item) as ->.
    { unfold validateSchema, schema_valid in *.
      destruct (get_prop item "code"); simpl in Hv; [|done].
      destruct (check item); [by injection Hv as <- _|].
      destruct (customCheck V _ thing item) as [[|? ?]|]; simpl in Hv; [| |done];
        by injection Hv as <- _. }
    by destruct (schema_valid check item), (forallb (schema_valid check) rest), retVal.
Qed.

(** ** The locales of a run *)

Lemma value_eqb_refl : forall v, value_eqb v v = true.
Proof.
  fix IH 1. intros [| |b|n|text|s|items|fields]; simpl; try done.
  - by apply bool_decide_eq_true.
  - apply Z.eqb_refl.
  - apply ObjFacts.eqb_refl.
  - apply ObjFacts.eqb_refl.
  - induction items as [|x r IHr]; [done|]. by rewrite IH, IHr.
  - induction fields as [|[k x] r IHr]; [done|].
    by rewrite ObjFacts.eqb_refl, IH, IHr.
Qed.

Lemma uniq_spec seen l :
  (forall x, x ∈ uniq seen l -> x ∈ l /\ x ∉ seen) /\ NoDup (uniq seen l).
Proof.
  revert seen. induction l as [|y r IH]; intros seen; simpl.
  - split; [intros x Hx; by apply not_elem_of_nil in Hx | constructor].
  - destruct (existsb (value_eqb y) seen) eqn:Hseen.
    + destruct (IH seen) as [Hin Hnd]. split; [|done].
      intros x Hx. destruct (Hin x Hx). split; [by right | done].
    + destruct (IH (y :: seen)) as [Hin Hnd].
      assert (Hy : y ∉ seen).
      { intros Hy. apply list_elem_of_In in Hy.
        assert (existsb (value_eqb y) seen = true); [|congruence].
        apply existsb_exists. exists y. split; [done | apply value_eqb_refl]. }
      split.
      * intros x Hx. apply elem_of_cons in Hx as [->|Hx]; [split; [left | done]|].
        destruct (Hin x Hx) as [Hr Hns]. split; [by right|].
        intros Hs. apply Hns. by right.
      * constructor; [|done]. intros Hy'. destruct (Hin y Hy') as [_ Hns]. apply Hns. left.
Qed.

Lemma map_res_elem {A B} (f : A -> res B) (l : list A) (ys : list B) y :
  map_res f l = Ok ys -> y ∈ ys -> exists x, x ∈ l /\ f x = Ok y.
Proof.
  revert ys. induction l as [|x r IH]; intros ys; simpl.
  - intros [= <-] Hy. by apply not_elem_of_nil in Hy.
  - destruct (f x) as [y0|] eqn:Hfx; simpl; [|done].
    destruct (map_res f r) as [ys0|]; simpl; [|done].
    intros [= <-] Hy. apply elem_of_cons in Hy as [->|Hy].
    + exists x. split; [left | done].
    + destruct (IH ys0 eq_refl Hy) as (x' & Hx' & Hfx'). exists x'. split; [by right | done].
Qed.

(** X12: among the locales a run validates no string occurs twice, the
    base locale [en] does not occur, and each of them is listed in the
    [languages] of a set that is a member of the set collection. *)
Theorem locales_come_from_the_sets cs locales :
  locales_of cs = Ok locales ->
  (forall i j s, locales !! i = Some (VStr s) -> locales !! j = Some (VStr s) -> i = j)
  /\ (VStr "en" ∉ locales)
  /\ forall l, l ∈ locales ->
       exists s langs, s ∈ members (default [] (Obj.get "set" cs))
                       /\ get_prop s "languages" = Ok langs
                       /\ l ∈ as_list langs.
Proof.
  unfold locales_of.
  destruct (map_res _ _) as [langs|] eqn:Hlangs; simpl; [|done].
  intros [= <-]. destruct (uniq_spec [] (flatten langs)) as [Hin Hnd].
  split; [|split].
  - intros i j s. apply NoDup_lookup. by apply NoDup_filter.
  - intros Hen. apply list_elem_of_filter in Hen as [Hneq _]. done.
  - intros l Hl. apply list_elem_of_filter in Hl as [_ Hl].
    apply Hin in Hl as [Hl _]. unfold flatten in Hl.
    apply list_elem_of_In, in_flat_map in Hl as (v & Hv & Hl).
    apply list_elem_of_In in Hv.
    destruct (map_res_elem _ _ _ _ Hlangs Hv) as (s & Hs & Hget).
    exists s, v. repeat split; try done. by apply list_elem_of_In.
Qed.

(** X13: a locale that is not a string (a set without [languages], a
    number in the list) makes [validateLocales] throw before that locale is
    looked at, when it is the first of the list. *)
Theorem first_locale_that_is_no_string_throws (E : Env) V st l rest :
  locales_of (collections st) = Ok (l :: rest) ->
  (forall s, l ≠ VStr s) ->
  validateLocales E V st = Throw TypeError.
Proof.
  intros Hloc Hl. unfold validateLocales. rewrite Hloc. cbn [res_bind validateLocales_loop].
  destruct l; try done. by destruct (Hl s).
Qed.

(** ** Placeholders *)

Lemma close_sound r t :
  Placeholder.close r = Some t ->
  ("}"%char ∉ t)
  /\ Forall (fun ch => Placeholder.line_terminator ch = false) t
  /\ exists post, r = t ++ "}"%char :: post.
Proof.
  revert t. induction r as [|ch r IH]; intros t; simpl; [done|].
  case_bool_decide as Hch.
  - intros [= <-]. subst ch. split; [apply not_elem_of_nil|]. split; [constructor|].
    by exists r.
  - destruct (Placeholder.line_terminator ch) eqn:Hlt; [done|].
    destruct (Placeholder.close r) as [t'|]; simpl; [|done].
    intros [= <-]. destruct (IH t' eq_refl) as (Hno & Hall & post & ->).
    split; [by apply not_elem_of_cons|]. split; [by constructor|]. by exists post.
Qed.

Lemma match_at_sound s g :
  Placeholder.match_at s = Some g ->
  exists ch t post,
    g = ch :: t /\ s = "{"%char :: ch :: t ++ "}"%char :: post
    /\ ("}"%char ∉ t)
    /\ Forall (fun x => Placeholder.line_terminator x = false) (ch :: t).
Proof.
  destruct s as [|open [|ch r]]; simpl; try done.
  case_bool_decide as Hopen; simpl; [|done].
  destruct (Placeholder.line_terminator ch) eqn:Hlt; simpl; [done|].
  destruct (Placeholder.close r) as [t|] eqn:Hclose; simpl; [|done].
  intros [= <-]. destruct (close_sound r t Hclose) as (Hno & Hall & post & ->).
  exists ch, t, post. subst open. repeat split; try done. by constructor.
Qed.

Lemma scan_sound s : forall skip g,
  g ∈ Placeholder.scan skip s ->
  exists pre ch t post,
    g = ch :: t /\ s = pre ++ "{"%char :: ch :: t ++ "}"%char :: post
    /\ ("}"%char ∉ t)
    /\ Forall (fun x => Placeholder.line_terminator x = false) (ch :: t).
Proof.
  induction s as [|a r IH]; intros skip g; cbn [Placeholder.scan].
  - intros Hg. by apply not_elem_of_nil in Hg.
  - assert (Hlater : forall k, g ∈ Placeholder.scan k r ->
              exists pre ch t post,
                g = ch :: t /\ a :: r = pre ++ "{"%char :: ch :: t ++ "}"%char :: post
                /\ ("}"%char ∉ t)
                /\ Forall (fun x => Placeholder.line_terminator x = false) (ch :: t)).
    { intros k Hg. destruct (IH k g Hg) as (pre & ch & t & post & -> & -> & Hno & Hall).
      by exists (a :: pre), ch, t, post. }
    destruct skip as [|k]; [|apply Hlater].
    destruct (Placeholder.match_at (a :: r)) as [g0|] eqn:Hm; [|apply Hlater].
    intros Hg. apply elem_of_cons in Hg as [->|Hg]; [|by eapply Hlater].
    destruct (match_at_sound _ _ Hm) as (ch & t & post & -> & Hs & Hno & Hall).
    exists [], ch, t, post. by rewrite Hs.
Qed.

(** X14: every placeholder the pattern finds is a piece of the text: an
    opening brace, an expression of at least one character without line
    terminator, with no closing brace after its first character, and the
    closing brace. *)
Theorem placeholder_is_a_braced_piece_of_the_text rules g :
  g ∈ Placeholder.groups rules ->
  exists pre ch t post,
    g = String ch (Str.of_chars t)
    /\ Str.chars rules = pre ++ "{"%char :: ch :: t ++ "}"%char :: post
    /\ ("}"%char ∉ t)
    /\ Forall (fun x => Placeholder.line_terminator x = false) (ch :: t).
Proof.
  unfold Placeholder.groups. intros Hg.
  apply list_elem_of_In, in_map_iff in Hg as (g' & <- & Hg').
  apply list_elem_of_In, scan_sound in Hg' as (pre & ch & t & post & -> & Hs & Hno & Hall).
  by exists pre, ch, t, post.
Qed.

Lemma scan_without_brace s : forall skip,
  "{"%char ∉ s -> Placeholder.scan skip s = [].
Proof.
  induction s as [|a r IH]; intros skip Hno; cbn [Placeholder.scan]; [done|].
  apply not_elem_of_cons in Hno as [Ha Hr].
  destruct skip; [|by apply IH].
  assert (Placeholder.match_at (a :: r) = None) as ->.
  { destruct r; simpl; [done|]. by rewrite (bool_decide_eq_false_2 (a = "{"%char)). }
  by apply IH.
Qed.

(** X15: a keyword whose [rules], as a string, have no opening brace
    passes the placeholder rule, whatever its [args] are; this includes a
    keyword without [rules]. *)
Theorem keyword_without_brace_passes fields :
  "{"%char ∉ Str.chars (to_string (field fields "rules")) ->
  customCheckKeyword (VObj fields) = Ok [].
Proof.
  intros Hno. unfold customCheckKeyword. cbn [get_prop res_bind]. fold (field fields "rules").
  unfold Placeholder.test, Placeholder.matches, Placeholder.groups.
  by rewrite scan_without_brace.
Qed.

(** ** Canonical text *)

Lemma split_nonempty sep s : Str.split sep s ≠ [].
Proof.
  destruct s as [|ch s']; simpl; [done|].
  case_bool_decide; [done|]. by destruct (Str.split sep s').
Qed.

Lemma join_cons sep x (l : list string) :
  l ≠ [] -> Str.join sep (x :: l) = x +:+ sep +:+ Str.join sep l.
Proof. by destruct l. Qed.

(** Splitting a text at a separator and joining the pieces with it gives
    the text back. *)
Lemma join_split_is_identity sep s :
  Str.join (String sep EmptyString) (Str.split sep s) = s.
Proof.
  induction s as [|ch s' IH]; [done|]. cbn [Str.split].
  pose proof (split_nonempty sep s') as Hne.
  case_bool_decide as Hsep.
  - subst ch. rewrite join_cons by done. by rewrite IH.
  - destruct (Str.split sep s') as [|w ws] eqn:Hsplit; [done|].
    destruct ws as [|w' ws'].
    + cbn [Str.join] in *. by rewrite IH.
    + rewrite join_cons in * by done. by rewrite <- IH.
Qed.

Lemma separate_items_from lines dumped :
  lines ≠ [] ->
  fold_left
    (fun lines line =>
       if Str.startsWith "-" line && bool_decide (lines ≠ [])
       then lines ++ [EmptyString; line]
       else lines ++ [line])
    dumped lines
  = lines ++ flat_map separated dumped.
Proof.
  revert lines. induction dumped as [|line rest IH]; intros lines Hne;
    cbn [fold_left flat_map].
  - by rewrite app_nil_r.
  - rewrite (bool_decide_eq_true_2 (lines ≠ [])) by done. rewrite andb_true_r.
    unfold separated at 1. destruct (Str.startsWith "-" line);
      (rewrite IH; [by rewrite <- app_assoc | by destruct lines]).
Qed.

(** X16: the blank-line pass keeps the first line as it is and puts
    exactly one empty line before every later line that starts with a dash;
    it changes nothing else. *)
Theorem separate_items_closed_form first rest :
  separate_items (first :: rest) = first :: flat_map separated rest.
Proof.
  unfold separate_items. cbn [fold_left]. rewrite andb_false_r.
  by rewrite separate_items_from.
Qed.

Lemma separated_no_items rest :
  Forall (fun line => Str.startsWith "-" line = false) rest ->
  flat_map separated rest = rest.
Proof.
  induction 1 as [|line r Hline _ IH]; [done|].
  cbn [flat_map]. unfold separated at 1. by rewrite Hline, IH.
Qed.

Section CanonicalText.
Context (E : Env).

(** X17: when no line of the dump after the first starts with a dash
    (the dump of a single record), the canonical text is the dump itself. *)
Theorem formatYaml_of_a_record_is_the_dump data options text :
  yaml_dump E data options = Some text ->
  Forall (fun line => Str.startsWith "-" line = false) (tail (Str.split "010"%char text)) ->
  formatYaml E data options = Some text.
Proof.
  intros Hdump Hlines. unfold formatYaml. rewrite Hdump. f_equal.
  pose proof (split_nonempty "010"%char text) as Hne.
  pose proof (join_split_is_identity "010"%char text) as Hjoin.
  destruct (Str.split "010"%char text) as [|first rest]; [done|].
  unfold separate_items. cbn [fold_left]. rewrite andb_false_r.
  rewrite separate_items_from by done. cbn [app].
  by rewrite separated_no_items.
Qed.

End CanonicalText.

(** The dump of the sample ink. *)
Lemma formatYaml_of_a_record_is_the_dump_witness :
  formatYaml (Sample.env []) Sample.amber dump_options_data = Some Sample.amber_text.
Proof.
  apply formatYaml_of_a_record_is_the_dump.
  - reflexivity.
  - vm_compute. repeat constructor.
Defined.

(** *** The key order *)

Lemma indexOf_range l a : -1 <= indexOf l a.
Proof.
  induction l as [|x r IH]; simpl; [lia|].
  destruct (Str.eqb a x); [lia|]. destruct (indexOf r a <? 0) eqn:H; lia.
Qed.

Lemma indexOf_includes l a : includes_str l a = true <-> 0 <= indexOf l a.
Proof.
  unfold includes_str. induction l as [|x r IH]; simpl; [split; [done | lia]|].
  destruct (Str.eqb a x); simpl; [split; [lia | done]|].
  rewrite IH. destruct (Z.ltb_spec (indexOf r a) 0); lia.
Qed.

Lemma indexOf_inj l a b :
  0 <= indexOf l a -> indexOf l a = indexOf l b -> a = b.
Proof.
  induction l as [|x r IH]; simpl; [lia|].
  destruct (Str.eqb a x) eqn:Ha, (Str.eqb b x) eqn:Hb.
  - apply ObjFacts.eqb_eq in Ha, Hb. congruence.
  - destruct (Z.ltb_spec (indexOf r b) 0); lia.
  - destruct (Z.ltb_spec (indexOf r a) 0); lia.
  - destruct (Z.ltb_spec (indexOf r a) 0), (Z.ltb_spec (indexOf r b) 0); try lia.
    intros _ Heq. apply IH; lia.
Qed.

(** X18: the key comparator given to the dumper is antisymmetric, and
    it calls two keys equal exactly when they are the same key or one of
    them is not in [keysort]. *)
Theorem sortKeys_antisymmetric_and_zero a b :
  sortKeys_keysort b a = - sortKeys_keysort a b
  /\ (sortKeys_keysort a b = 0 <->
      a = b \/ includes_str keysort a = false \/ includes_str keysort b = false).
Proof.
  unfold sortKeys_keysort.
  destruct (includes_str keysort a) eqn:Ha, (includes_str keysort b) eqn:Hb;
    cbn [andb]; (split; [lia|]); try (split; [by auto | done]).
  split.
  - intros Hzero. left. apply (indexOf_inj keysort); [by apply indexOf_includes | lia].
  - intros [->|[?|?]]; [lia | done | done].
Qed.

(** ** The locale merge tool *)

Lemma includes_str_elem l k : includes_str l k = true <-> k ∈ l.
Proof.
  unfold includes_str. rewrite existsb_exists. split.
  - intros (x & Hx & Heq). apply ObjFacts.eqb_eq in Heq as ->. by apply list_elem_of_In.
  - intros Hk. exists k. split; [by apply list_elem_of_In | apply ObjFacts.eqb_refl].
Qed.

Lemma pick_fold (fields : jsobj value) paths : forall (acc : jsobj value) k,
  Obj.get k (fold_left
               (fun acc k => match Obj.get k fields with
                             | Some v => Obj.set k v acc
                             | None => acc
                             end) paths acc)
  = if includes_str paths k
    then match Obj.get k fields with Some v => Some v | None => Obj.get k acc end
    else Obj.get k acc.
Proof.
  induction paths as [|p r IH]; intros acc k; [done|].
  cbn [fold_left]. rewrite IH. unfold includes_str. cbn [existsb]. fold (includes_str r k).
  destruct (Str.eqb k p) eqn:Hkp; cbn [orb].
  - apply ObjFacts.eqb_eq in Hkp as ->.
    destruct (Obj.get p fields) as [v|] eqn:Hp.
    + rewrite ObjFacts.get_set_eq. by destruct (includes_str r p).
    + by destruct (includes_str r p).
  - destruct (Obj.get p fields) as [v|]; [|done].
    rewrite ObjFacts.get_set_ne; [done|]. intros ->. by rewrite ObjFacts.eqb_refl in Hkp.
Qed.

(** [_.pick] keeps the listed fields that the record has, with their
    values, and nothing else; of anything that is not an object it makes
    the empty record. *)
Lemma pick_keeps_the_listed_fields paths p k :
  get_prop (UpdateLocales.pick paths p) k
  = if includes_str paths k && is_object p
    then Ok (field (enumerable p) k)
    else Ok VUndef.
Proof.
  destruct p; cbn [UpdateLocales.pick is_object get_prop Obj.get default option_map];
    rewrite ?andb_false_r; try done.
  rewrite andb_true_r, pick_fold. unfold field. cbn [enumerable Obj.get].
  destruct (includes_str paths k); [|done]. by destruct (Obj.get k fields).
Qed.

Lemma sort_insert_object x sorted :
  is_object x = true -> Forall (fun v => is_object v = true) sorted ->
  UpdateLocales.sort_insert x sorted = sorted ++ [x].
Proof.
  intros Hx. induction 1 as [|y r Hy _ IH]; [done|].
  cbn [UpdateLocales.sort_insert]. destruct x, y; try done.
  change (UpdateLocales.compareAscending (VObj fields) (VObj fields0)) with Eq.
  cbn. by rewrite IH.
Qed.

(** [_.sortBy], given no iteratee, leaves a list of plain objects as it is. *)
Lemma sortBy_objects l :
  Forall (fun v => is_object v = true) l -> UpdateLocales.sortBy l = l.
Proof.
  unfold UpdateLocales.sortBy.
  assert (Hgen : forall acc, Forall (fun v => is_object v = true) acc ->
            Forall (fun v => is_object v = true) l ->
            fold_left (fun sorted x => UpdateLocales.sort_insert x sorted) l acc = acc ++ l).
  { induction l as [|x r IH]; intros acc Hacc Hl; cbn [fold_left]; [by rewrite app_nil_r|].
    apply Forall_cons in Hl as [Hx Hr].
    rewrite sort_insert_object by done.
    rewrite IH; [by rewrite <- app_assoc | | done].
    apply Forall_app. split; [done | by constructor]. }
  intros Hl. by apply (Hgen []).
Qed.

Section Values.
Context {A : Type} (P : A -> Prop).

Lemma Forall_values_replace k v (o : jsobj A) :
  P v -> Forall P (Obj.values o) -> Forall P (Obj.values (Obj.replace k v o)).
Proof.
  intros Hv. induction o as [|[k0 v0] r IH]; cbn; [done|].
  intros Hall. apply Forall_cons in Hall as [H0 Hr].
  destruct (Str.eqb k k0); cbn; constructor; auto.
Qed.

Lemma Forall_values_add_index i k v (o : jsobj A) :
  P v -> Forall P (Obj.values o) -> Forall P (Obj.values (Obj.add_index i k v o)).
Proof.
  intros Hv. induction o as [|[k0 v0] r IH]; cbn; [by constructor|].
  intros Hall. pose proof Hall as Hall'. apply Forall_cons in Hall as [H0 Hr].
  destruct (Str.array_index k0) as [j|]; [|by constructor].
  destruct (j <? i)%N; cbn; constructor; auto.
Qed.

Lemma Forall_values_set k v (o : jsobj A) :
  P v -> Forall P (Obj.values o) -> Forall P (Obj.values (Obj.set k v o)).
Proof.
  intros Hv Hall. unfold Obj.set. destruct (Obj.has k o).
  - by apply Forall_values_replace.
  - unfold Obj.add. destruct (Str.array_index k).
    + by apply Forall_values_add_index.
    + unfold Obj.values in *. rewrite map_app. apply Forall_app. split; [done|].
      by constructor.
Qed.

Lemma Forall_values_get k v (o : jsobj A) :
  Forall P (Obj.values o) -> Obj.get k o = Some v -> P v.
Proof.
  induction o as [|[k0 v0] r IH]; cbn; [done|].
  intros Hall. apply Forall_cons in Hall as [H0 Hr].
  destruct (Str.eqb k k0); [by intros [= <-] | by apply IH].
Qed.

End Values.

Lemma get_fold_set {A B} (key : B -> string) (val : B -> A) (l : list B) :
  forall (init : jsobj A) k v,
    Obj.get k (fold_left (fun acc x => Obj.set (key x) (val x) acc) l init) = Some v ->
    (exists x, x ∈ l /\ key x = k /\ val x = v) \/ Obj.get k init = Some v.
Proof.
  induction l as [|x r IH]; intros init k v; cbn [fold_left]; [by right|].
  intros Hget. apply IH in Hget as [(y & Hy & Hk & Hv)|Hget].
  - left. exists y. split; [by right | done].
  - rewrite ObjFacts.get_set in Hget. destruct (Str.eqb k (key x)) eqn:Hkx; [|by right].
    left. exists x. apply ObjFacts.eqb_eq in Hkx. injection Hget as <-.
    split; [left | done].
Qed.

Lemma Forall_values_fold_set {A B} (P : A -> Prop) (key : B -> string) (val : B -> A)
    (l : list B) :
  (forall x, x ∈ l -> P (val x)) ->
  forall init, Forall P (Obj.values init) ->
    Forall P (Obj.values (fold_left (fun acc x => Obj.set (key x) (val x) acc) l init)).
Proof.
  induction l as [|x r IH]; intros Hl init Hinit; cbn [fold_left]; [done|].
  apply IH; [intros y Hy; apply Hl; by right|].
  apply Forall_values_set; [apply Hl; left | done].
Qed.

(** X19: [loadThings] keeps, of the record of every file, the fields
    [code], [name], [text], [version] and [rules] that it has, and nothing
    else. *)
Theorem loadThings_keeps_the_translatable_fields parsed file r :
  Obj.get file (UpdateLocales.loadThings parsed) = Some r ->
  exists content,
    (file, content) ∈ parsed
    /\ forall k,
         get_prop r k
         = if includes_str ["code"; "name"; "text"; "version"; "rules"] k && is_object content
           then Ok (field (enumerable content) k)
           else Ok VUndef.
Proof.
  unfold UpdateLocales.loadThings. intros Hget.
  apply (get_fold_set (fun fc : string * value => fc.1)
           (fun fc => UpdateLocales.pick ["code"; "name"; "text"; "version"; "rules"] fc.2))
    in Hget as [([f content] & Hin & Hf & <-)|Hget]; [|done].
  cbn in Hf. subst f. exists content. split; [done|].
  intros k. apply pick_keeps_the_listed_fields.
Qed.

Lemma merge_into_cons d k sv r :
  UpdateLocales.merge_into (VObj d) (VObj ((k, sv) :: r))
  = UpdateLocales.merge_into
      (VObj (Obj.set k (UpdateLocales.merge_into (field d k) sv) d)) (VObj r).
Proof. reflexivity. Qed.

Lemma merge_into_nil d : UpdateLocales.merge_into (VObj d) (VObj []) = VObj d.
Proof. reflexivity. Qed.

Lemma merge_into_objects l : forall d,
  Forall (fun v => is_object v = true) (Obj.values l) ->
  Forall (fun v => is_object v = true) (Obj.values d) ->
  exists m, UpdateLocales.merge_into (VObj d) (VObj l) = VObj m
            /\ Forall (fun v => is_object v = true) (Obj.values m).
Proof.
  induction l as [|[k sv] r IH]; intros d Hl Hd.
  - exists d. by rewrite merge_into_nil.
  - cbn in Hl. apply Forall_cons in Hl as [Hsv Hr]. rewrite merge_into_cons.
    apply IH; [done|]. apply Forall_values_set; [|done].
    unfold field. destruct (Obj.get k d) as [dv|] eqn:Hdv; cbn [default].
    + pose proof (Forall_values_get _ k dv d Hd Hdv) as Hobject.
      by destruct sv, dv.
    + by destruct sv.
Qed.

Lemma merge_objects a b :
  Forall (fun v => is_object v = true) (Obj.values a) ->
  Forall (fun v => is_object v = true) (Obj.values b) ->
  Forall (fun v => is_object v = true) (Obj.values (UpdateLocales.merge a b)).
Proof.
  intros Ha Hb. unfold UpdateLocales.merge.
  destruct (merge_into_objects a [] Ha) as (m1 & -> & Hm1); [constructor|].
  by destruct (merge_into_objects b m1 Hb Hm1) as (m2 & -> & Hm2).
Qed.

Lemma loadPrintings_objects parsed file l :
  Obj.get file (UpdateLocales.loadPrintings parsed) = Some l ->
  Forall (fun v => is_object v = true) l.
Proof.
  unfold UpdateLocales.loadPrintings. intros Hget.
  apply (get_fold_set (fun fc : string * value => fc.1)
           (fun fc => map (UpdateLocales.pick ["code"; "flavor"])
                        (UpdateLocales.lodash_map_items fc.2))) in Hget
    as [(fc & _ & _ & <-)|Hget]; [|done].
  apply Forall_map, Forall_forall. intros p _. by destruct p.
Qed.

Lemma keyBy_objects l :
  Forall (fun v => is_object v = true) l ->
  Forall (fun v => is_object v = true) (Obj.values (UpdateLocales.keyBy l)).
Proof.
  intros Hl. unfold UpdateLocales.keyBy.
  apply (Forall_values_fold_set _ UpdateLocales.codeFn (fun p => p)); [|constructor].
  intros x Hx. by eapply Forall_forall in Hl.
Qed.

Lemma get_fold_set_key {A} (val : string -> A) (l : list string) :
  forall (init : jsobj A) k,
    Obj.get k (fold_left (fun acc x => Obj.set x (val x) acc) l init)
    = if includes_str l k then Some (val k) else Obj.get k init.
Proof.
  induction l as [|x r IH]; intros init k; cbn [fold_left]; [done|].
  rewrite IH, ObjFacts.get_set. unfold includes_str. cbn [existsb]. fold (includes_str r k).
  destruct (Str.eqb k x) eqn:Hkx; cbn [orb]; [|done].
  apply ObjFacts.eqb_eq in Hkx as ->. by destruct (includes_str r x).
Qed.

Lemma includes_str_cons x l k :
  includes_str (x :: l) k = Str.eqb k x || includes_str l k.
Proof. reflexivity. Qed.

Lemma union_keys_includes l : forall seen k,
  includes_str (UpdateLocales.union_keys seen l) k
  = includes_str l k && negb (includes_str seen k).
Proof.
  induction l as [|x r IH]; intros seen k; cbn [UpdateLocales.union_keys]; [done|].
  rewrite (includes_str_cons x r).
  destruct (includes_str seen x) eqn:Hseen.
  - rewrite IH. destruct (Str.eqb k x) eqn:Hkx; cbn [orb]; [|done].
    apply ObjFacts.eqb_eq in Hkx as ->. rewrite Hseen. cbn. by rewrite andb_false_r.
  - rewrite includes_str_cons, IH, includes_str_cons.
    destruct (Str.eqb k x) eqn:Hkx; cbn [orb negb].
    + apply ObjFacts.eqb_eq in Hkx as ->. by rewrite Hseen.
    + done.
Qed.

Lemma includes_str_app l1 l2 k :
  includes_str (l1 ++ l2) k = includes_str l1 k || includes_str l2 k.
Proof. unfold includes_str. apply existsb_app. Qed.

Lemma includes_keys_has {A} (o : jsobj A) k : includes_str (Obj.keys o) k = Obj.has k o.
Proof.
  unfold Obj.has. induction o as [|[k0 v0] r IH]; [done|].
  unfold includes_str in *. cbn. destruct (Str.eqb k k0); [done | exact IH].
Qed.

(** X20: in [mergeLists] the call of [sortBy] changes nothing: for every
    file the merged list is the list of the values of the merged object, in
    the order of its keys. *)
Theorem mergeLists_lists_are_in_key_order base locale file l :
  Obj.get file (UpdateLocales.mergeLists (UpdateLocales.loadPrintings base)
                  (UpdateLocales.loadPrintings locale)) = Some l ->
  l = Obj.values
        (UpdateLocales.merge
           (UpdateLocales.keyBy
              (default [] (Obj.get file (UpdateLocales.loadPrintings base))))
           (UpdateLocales.keyBy
              (default [] (Obj.get file (UpdateLocales.loadPrintings locale))))).
Proof.
  unfold UpdateLocales.mergeLists.
  rewrite (get_fold_set_key
             (fun file => UpdateLocales.sortBy
                (Obj.values
                   (UpdateLocales.merge
                      (UpdateLocales.keyBy
                         (default [] (Obj.get file (UpdateLocales.loadPrintings base))))
                      (UpdateLocales.keyBy
                         (default [] (Obj.get file (UpdateLocales.loadPrintings locale)))))))).
  destruct (includes_str _ file); [|done]. intros [= <-].
  apply sortBy_objects, merge_objects; apply keyBy_objects.
  - destruct (Obj.get file (UpdateLocales.loadPrintings base)) eqn:Hb; [|constructor].
    by eapply loadPrintings_objects.
  - destruct (Obj.get file (UpdateLocales.loadPrintings locale)) eqn:Hb; [|constructor].
    by eapply loadPrintings_objects.
Qed.

Lemma merge_into_primitive d sv :
  primitive sv = true -> UpdateLocales.merge_into d sv = sv.
Proof. by destruct sv. Qed.

Lemma merge_into_flat l : forall d,
  Forall (fun kv : string * value => primitive kv.2 = true) l ->
  UpdateLocales.merge_into (VObj d) (VObj l) = VObj (Obj.assign d l).
Proof.
  induction l as [|[k sv] r IH]; intros d Hl; [done|].
  apply Forall_cons in Hl as [Hsv Hr]. cbn in Hsv.
  rewrite merge_into_cons. rewrite (merge_into_primitive _ sv Hsv).
  by rewrite IH.
Qed.

(** Merging two records of scalars: the fields of both, those of the
    second winning. *)
Lemma merge_flat a b k :
  flat_record a -> flat_record b ->
  Obj.get k (UpdateLocales.merge a b)
  = match Obj.get k b with Some v => Some v | None => Obj.get k a end.
Proof.
  intros [Hnda Ha] [Hndb Hb]. unfold UpdateLocales.merge.
  rewrite (merge_into_flat a [] Ha), (merge_into_flat b _ Hb).
  rewrite ObjFacts.get_assign by done.
  destruct (Obj.get k b); [done|]. rewrite ObjFacts.get_assign by done.
  by destruct (Obj.get k a).
Qed.

Lemma get_mergeData a b file :
  Obj.get file (UpdateLocales.mergeData a b)
  = if Obj.has file a || Obj.has file b
    then Some (VObj (UpdateLocales.merge (UpdateLocales.fields_of (Obj.get file a))
                       (UpdateLocales.fields_of (Obj.get file b))))
    else None.
Proof.
  unfold UpdateLocales.mergeData.
  rewrite (get_fold_set_key
             (fun file => VObj (UpdateLocales.merge (UpdateLocales.fields_of (Obj.get file a))
                                  (UpdateLocales.fields_of (Obj.get file b))))).
  by rewrite union_keys_includes, includes_str_app, !includes_keys_has, andb_true_r.
Qed.


(** X22: the merged things have an entry for exactly the files of the
    base and of the locale; a file only the base has, with a record of
    scalars, gets the base record, field by field. *)
Theorem mergeData_covers_base_and_locale a b file :
  Obj.has file (UpdateLocales.mergeData a b) = Obj.has file a || Obj.has file b
  /\ (forall base_fields,
        Obj.get file a = Some (VObj base_fields) -> Obj.get file b = None ->
        flat_record base_fields ->
        exists merged,
          Obj.get file (UpdateLocales.mergeData a b) = Some (VObj merged)
          /\ forall k, Obj.get k merged = Obj.get k base_fields).
Proof.
  split.
  - unfold Obj.has at 1. rewrite get_mergeData.
    by destruct (Obj.has file a || Obj.has file b).
  - intros base_fields Ha Hb Hflat. rewrite get_mergeData. unfold Obj.has.
    rewrite Ha, Hb. cbn [orb UpdateLocales.fields_of]. eexists. split; [reflexivity|].
    intros k. rewrite merge_flat; [done | done | split; constructor].
Qed.

(** ** The loader and the collections *)

(** X23: for a kind without path metadata the loader returns the parsed
    items as they are, in the order of the files: the elements of a file
    that holds a list, the one value of any other file. *)
Theorem loader_returns_the_parsed_items (E : Env) V thingPath st :
  (loadThingsData E V thingPath None st).1
  = flat_map (fun fj => as_list fj.2)
      (files_read E V thingPath (glob_sync E thingPath) st).
Proof.
  unfold loadThingsData. rewrite loadThingsData_files_spec. cbn [app].
  induction (files_read E V thingPath (glob_sync E thingPath) st) as [|fj r IH]; [done|].
  cbn [flat_map]. rewrite IH. f_equal. cbn [attach]. apply map_id.
Qed.

(** X24: registering a batch of records under a kind leaves the
    collections of the other kinds as they are, and keeps every record
    already registered under that kind whose code the batch does not
    contain. *)
Theorem loadCollections_keeps_the_rest thing collection cs cs' :
  loadCollections thing collection cs = Ok cs' ->
  (forall other, other ≠ thing -> Obj.get other cs' = Obj.get other cs)
  /\ (forall k, (forall item, item ∈ collection -> code_key item ≠ k) ->
      exists o', Obj.get thing cs' = Some o'
                 /\ Obj.get k o' = Obj.get k (default [] (Obj.get thing cs))).
Proof.
  unfold loadCollections. intros Hrun.
  destruct (loadCollections_items collection (default [] (Obj.get thing cs)))
    as [o'|] eqn:Hitems; simpl in Hrun; [|done].
  injection Hrun as <-. split.
  - intros other Hne. by apply ObjFacts.get_set_ne.
  - intros k Hk. exists o'. split; [apply ObjFacts.get_set_eq|].
    by eapply loadCollections_items_frame.
Qed.

(** ** The card schema and the card rule *)

Lemma upperFirst_nonempty s : s ≠ EmptyString -> Str.upperFirst s ≠ EmptyString.
Proof. by destruct s. Qed.

Lemma schema_field_accepted fields k v accepts :
  CardSchema.valid (VObj fields) = true ->
  Obj.get k fields = Some v ->
  Obj.get k CardSchema.properties = Some accepts ->
  accepts v = true.
Proof.
  unfold CardSchema.valid. intros Hvalid Hget Hprop.
  apply andb_true_iff in Hvalid as [Hall _].
  rewrite forallb_forall in Hall.
  induction fields as [|[k0 v0] r IH]; cbn in Hget; [done|].
  destruct (Str.eqb k k0) eqn:Hk.
  - apply ObjFacts.eqb_eq in Hk as <-. injection Hget as <-.
    specialize (Hall (k, v0) (or_introl eq_refl)). cbn [fst snd] in Hall.
    by rewrite Hprop in Hall.
  - apply IH; [|done]. intros x Hx. apply Hall. by right.
Qed.

Lemma schema_list_iterates fields k :
  CardSchema.valid (VObj fields) = true ->
  Obj.get k CardSchema.properties = Some CardSchema.string_list ->
  exists codes, iterate (js_or (field fields k) (VArr [])) = Ok codes.
Proof.
  intros Hvalid Hprop. unfold field.
  destruct (Obj.get k fields) as [v|] eqn:Hget; [|by exists []].
  pose proof (schema_field_accepted fields k v _ Hvalid Hget Hprop) as Hv.
  destruct v; try done. cbn. by exists items.
Qed.

(** X25: a card that [card_schema.yml] accepts cannot make the card rule
    throw when the four collections it refers to are registered: its [type]
    is a non-empty string and its [keywords] and [traits], when present, are
    lists. *)
Theorem schema_valid_card_is_checked_without_exception cs fields types inks kws trs :
  CardSchema.valid (VObj fields) = true ->
  Obj.get "type" cs = Some types ->
  Obj.get "ink" cs = Some inks ->
  Obj.get "keyword" cs = Some kws ->
  Obj.get "trait" cs = Some trs ->
  exists errs, customCheckCard cs (VObj fields) = Ok errs.
Proof.
  intros Hvalid Htypes Hinks Hkws Htrs.
  destruct (schema_list_iterates fields "keywords" Hvalid eq_refl) as [kcodes Hk].
  destruct (schema_list_iterates fields "traits" Hvalid eq_refl) as [tcodes Ht].
  assert (Htype : Str.upperFirst (lodash_toString (field fields "type")) ≠ EmptyString).
  { pose proof Hvalid as Hreq. unfold CardSchema.valid in Hreq.
    apply andb_true_iff in Hreq as [_ Hreq]. cbn in Hreq.
    unfold field. unfold Obj.has in Hreq.
    destruct (Obj.get "type" fields) as [v|] eqn:Hget.
    - pose proof (schema_field_accepted fields "type" v _ Hvalid Hget eq_refl) as Hv.
      destruct v; try done. cbn in *. apply upperFirst_nonempty.
      intros ->. by rewrite ObjFacts.eqb_refl in Hv.
    - by rewrite !andb_false_r in Hreq || destruct (Obj.get "code" fields), (Obj.get "name" fields). }
  destruct (customCheckCard_registered cs fields types inks kws trs
              kcodes tcodes Htypes Hinks Hkws Htrs Hk Ht)
    as (validations & cerrs & _ & Herrs & _).
  rewrite Herrs, (ObjFacts.eqb_ne _ EmptyString) by done.
  destruct (Str.eqb _ "Character"); eexists; reflexivity.
Qed.

(** ** A schema file that holds a falsy value *)

(** X26: when the schema file of a collection parses to a falsy value
    ([null], [false], [0], the empty string), the collection is given up
    without any error being counted for it: none of its records is
    validated, it is not registered, and the loop goes on with the next
    collection. *)
Theorem falsy_schema_skips_the_collection_silently (E : Env) V thing info st schemaData st4 :
  before_compile E V thing info st = Ok (schemaData, st4) ->
  truthy schemaData = false ->
  loadCollection E V thing info st = Ok (None, st4)
  /\ forall rest,
       validate_things E V ((thing, info) :: rest) st = validate_things E V rest st4.
Proof.
  intros Hbefore Hfalsy.
  assert (Hload : loadCollection E V thing info st = Ok (None, st4)).
  { unfold before_compile in Hbefore. unfold loadCollection, validateCollection.
    destruct (checkDirAccess _ _); simpl in *; [|done].
    destruct (loadThingsData E V _ info _) as [thingsData st2]; simpl in *.
    destruct (checkFileAccess _ _); simpl in *; [|done].
    injection Hbefore as Hbefore. rewrite Hbefore, Hfalsy. done. }
  split; [done|]. intros rest. cbn [validate_things]. by rewrite Hload.
Qed.

(** * Instances of the further properties *)

Lemma falsy_schema_skips_the_collection_silently_witness :
  let E := Sample.env_with_null Sample.translated in
  let st := initial_state (Sample.tree_with_null_schema Sample.translated) in
  loadCollection E Sample.V "ink" None st = Ok (None, Sample.at_null_schema.2)
  /\ forall rest,
       validate_things E Sample.V (("ink", None) :: rest) st
       = validate_things E Sample.V rest Sample.at_null_schema.2.
Proof.
  apply (falsy_schema_skips_the_collection_silently (Sample.env_with_null Sample.translated)
           Sample.V "ink" None
           (initial_state (Sample.tree_with_null_schema Sample.translated))
           Sample.at_null_schema.1 Sample.at_null_schema.2).
  - vm_compute. reflexivity.
  - vm_compute. reflexivity.
Defined.

(** The sample character card, with one keyword that is not registered;
    and the sample ink checked as a card: it has no [type]. *)
Lemma card_rule_one_violation_per_broken_reference_witness :
  (exists errs,
     customCheckCard (collections Sample.before_sebastian) (VObj Sample.ariel_card)
     = (if Str.eqb (Str.upperFirst (lodash_toString (field Sample.ariel_card "type")))
             EmptyString
        then Throw RangeError
        else Ok errs)
     /\ length errs
        = ((if truthy (field Sample.ariel_card "type")
               && negb (resolves (field Sample.ariel_card "type")
                          [("character", Sample.character)])
            then 1 else 0)
           + (if truthy (field Sample.ariel_card "ink")
                 && negb (resolves (field Sample.ariel_card "ink") [("amber", Sample.amber)])
              then 1 else 0)
           + unresolved [] [VStr "singer"]
           + unresolved [] []
           + (if Str.eqb (Str.upperFirst (lodash_toString (field Sample.ariel_card "type")))
                   "Character"
              then missing_attributes Sample.ariel_card else 0))%nat)
  /\ customCheckCard (collections Sample.before_sebastian) Sample.amber = Throw RangeError.
Proof.
  split.
  - apply (card_rule_one_violation_per_broken_reference (collections Sample.before_sebastian)
             Sample.ariel_card [("character", Sample.character)] [("amber", Sample.amber)]
             [] [] [VStr "singer"] []);
      reflexivity.
  - destruct (card_rule_one_violation_per_broken_reference
                (collections Sample.before_sebastian) (enumerable Sample.amber)
                [("character", Sample.character)] [("amber", Sample.amber)] [] [] [] []
                eq_refl eq_refl eq_refl eq_refl eq_refl eq_refl) as (errs & Hrun & _).
    exact Hrun.
Defined.

(** What the sample character card gets: the one violation of its
    keyword. *)
Example ariel_has_one_violation :
  customCheckCard (collections Sample.before_sebastian) (VObj Sample.ariel_card)
  = Ok ["Keyword code 'singer' does not exists in set '" +:+ c "ariel" +:+ "'"].
Proof. vm_compute. reflexivity. Qed.

(** A set in a cycle validated with no cycle collection, and a set
    without a cycle. *)
Lemma set_rule_dereferences_the_cycle_collection_witness :
  validateSchema Sample.V "set" (VObj Sample.tfc_in_cycle) Sample.accepts_all
    (initial_state []) = Throw TypeError
  /\ exists st', validateSchema Sample.V "set" (Sample.tfc ["en"]) Sample.accepts_all
                   (initial_state []) = Ok (true, st')
                 /\ errors st' = errors (initial_state []).
Proof.
  split.
  - apply (set_rule_dereferences_the_cycle_collection Sample.V Sample.tfc_in_cycle
             Sample.accepts_all (initial_state [])); reflexivity.
  - apply (set_rule_dereferences_the_cycle_collection Sample.V
             [("code", VStr "tfc"); ("languages", VArr [VStr "en"])]
             Sample.accepts_all (initial_state [])); reflexivity.
Defined.

(** The translated ink, checked against the base inks; the same ink
    checked as a trait of a base that has registered no traits; and a record
    without a code. *)
Lemma overlay_rule_checks_the_code_only_witness :
  (exists errs,
     customCheck_i18n (collections Sample.before_sebastian) "es" "ink" Sample.amber_es = Ok errs
     /\ (errs = [] <->
         truthy (field (enumerable Sample.amber_es) "code") = false
         \/ resolves (field (enumerable Sample.amber_es) "code") [("amber", Sample.amber)]
            = true)
     /\ (length errs <= 1)%nat)
  /\ customCheck_i18n [("ink", [("amber", Sample.amber)])] "es" "trait" Sample.amber_es
     = Throw TypeError
  /\ customCheck_i18n [] "es" "ink" (VObj [("name", VStr "Ambar")]) = Ok [].
Proof.
  split; [|split].
  - apply (overlay_rule_checks_the_code_only (collections Sample.before_sebastian) "es" "ink"
             (enumerable Sample.amber_es)).
    reflexivity.
  - apply (overlay_rule_checks_the_code_only [("ink", [("amber", Sample.amber)])] "es" "trait"
             (enumerable Sample.amber_es)); reflexivity.
  - apply (overlay_rule_checks_the_code_only [] "es" "ink" [("name", VStr "Ambar")]).
    reflexivity.
Defined.

(** In the locale [es], two inks of which the second is not registered
    in the base: its violation is counted and the result is still [true];
    and a record that the schema rejects: the result is [false]. *)
Lemma collection_is_valid_iff_every_record_is_schema_valid_witness :
  (Sample.two_inks.1
   = forallb (schema_valid Sample.accepts_all) [Sample.amber_es; Sample.ruby_es] && true
   /\ Sample.two_inks.1 = true
   /\ validation (errors Sample.two_inks.2) = 1%N)
  /\ (Sample.ink_and_nameless.1
      = forallb (schema_valid Sample.requires_code)
          [Sample.amber_es; VObj [("name", VStr "Nameless")]] && true
      /\ Sample.ink_and_nameless.1 = false
      /\ validation (errors Sample.ink_and_nameless.2) = 1%N).
Proof.
  split; (split; [|split; vm_compute; reflexivity]).
  - apply (collection_is_valid_iff_every_record_is_schema_valid Sample.es_validator "ink"
             Sample.accepts_all [Sample.amber_es; Sample.ruby_es] true Sample.before_sebastian
             Sample.two_inks.1 Sample.two_inks.2).
    vm_compute. reflexivity.
  - apply (collection_is_valid_iff_every_record_is_schema_valid Sample.es_validator "ink"
             Sample.requires_code [Sample.amber_es; VObj [("name", VStr "Nameless")]] true
             Sample.before_sebastian Sample.ink_and_nameless.1 Sample.ink_and_nameless.2).
    vm_compute. reflexivity.
Defined.

(** The collections after the base pass of the tree with one locale. *)
Lemma locales_come_from_the_sets_witness :
  let cs := collections (Sample.after_base ["es"] [] Sample.translated) in
  (forall i j s, [VStr "es"] !! i = Some (VStr s) -> [VStr "es"] !! j = Some (VStr s) -> i = j)
  /\ (VStr "en" ∉ [VStr "es"])
  /\ forall l, l ∈ [VStr "es"] ->
       exists s langs, s ∈ members (default [] (Obj.get "set" cs))
                       /\ get_prop s "languages" = Ok langs
                       /\ l ∈ as_list langs.
Proof.
  apply (locales_come_from_the_sets
           (collections (Sample.after_base ["es"] [] Sample.translated)) [VStr "es"]).
  vm_compute. reflexivity.
Defined.

(** A registered set without [languages]. *)
Lemma first_locale_that_is_no_string_throws_witness :
  validateLocales (Sample.env []) Sample.V
    (mkState true no_errors Sample.set_without_languages [] []) = Throw TypeError.
Proof.
  apply (first_locale_that_is_no_string_throws (Sample.env []) Sample.V
           (mkState true no_errors Sample.set_without_languages [] []) VUndef []).
  - reflexivity.
  - discriminate.
Defined.

(** The placeholder of [Pay {cost} less]. *)
Lemma placeholder_is_a_braced_piece_of_the_text_witness :
  exists pre ch t post,
    "cost" = String ch (Str.of_chars t)
    /\ Str.chars "Pay {cost} less" = pre ++ "{"%char :: ch :: t ++ "}"%char :: post
    /\ ("}"%char ∉ t)
    /\ Forall (fun x => Placeholder.line_terminator x = false) (ch :: t).
Proof.
  apply (placeholder_is_a_braced_piece_of_the_text "Pay {cost} less" "cost").
  vm_compute. left.
Defined.

(** A keyword whose rules have no placeholder, and arguments all the same. *)
Lemma keyword_without_brace_passes_witness :
  customCheckKeyword (Sample.keyword "Draw two cards" ["n"]) = Ok [].
Proof.
  apply (keyword_without_brace_passes (enumerable (Sample.keyword "Draw two cards" ["n"]))).
  rewrite list_elem_of_In. vm_compute. intuition discriminate.
Defined.

(** A base file with two printings and a locale file with one of them. *)
Lemma mergeLists_lists_are_in_key_order_witness :
  let base := [("printings/tfc.yml",
                VArr [Sample.printing "TFC-002" 2; Sample.printing "TFC-001" 1])] in
  let locale := [("printings/tfc.yml",
                  VArr [VObj [("code", VStr "TFC-001"); ("flavor", VStr "Sabor")]])] in
  [VObj [("code", VStr "TFC-002"); ("flavor", VStr "Flavor of TFC-002")];
   VObj [("code", VStr "TFC-001"); ("flavor", VStr "Sabor")]]
  = Obj.values
      (UpdateLocales.merge
         (UpdateLocales.keyBy
            (default [] (Obj.get "printings/tfc.yml" (UpdateLocales.loadPrintings base))))
         (UpdateLocales.keyBy
            (default [] (Obj.get "printings/tfc.yml" (UpdateLocales.loadPrintings locale))))).
Proof.
  intros base locale.
  apply (mergeLists_lists_are_in_key_order base locale "printings/tfc.yml").
  vm_compute. reflexivity.
Defined.

Lemma flat_record_decide fields :
  bool_decide (NoDup (Obj.keys fields)) = true ->
  forallb (fun kv : string * value => primitive kv.2) fields = true ->
  flat_record fields.
Proof.
  intros Hnd Hall. split; [exact (proj1 (bool_decide_eq_true _) Hnd)|].
  apply Forall_forall. intros kv Hkv. rewrite forallb_forall in Hall.
  apply Hall. by apply list_elem_of_In.
Qed.


(** An ink the locale has no file for. *)
Lemma mergeData_covers_base_and_locale_witness :
  let a := UpdateLocales.loadThings [("inks/amber.yml", Sample.amber)] in
  exists merged,
    Obj.get "inks/amber.yml" (UpdateLocales.mergeData a []) = Some (VObj merged)
    /\ forall k, Obj.get k merged = Obj.get k (enumerable Sample.amber).
Proof.
  intros a.
  apply (proj2 (mergeData_covers_base_and_locale a [] "inks/amber.yml")
           (enumerable Sample.amber)).
  - reflexivity.
  - reflexivity.
  - apply flat_record_decide; vm_compute; reflexivity.
Defined.

(** Registering a translated ink beside the base ink. *)
Lemma loadCollections_keeps_the_rest_witness :
  let cs := [("ink", [("amber", Sample.amber)]); ("set", [("tfc", Sample.tfc ["en"])])] in
  let cs' := [("ink", [("amber", Sample.amber); ("ruby", Sample.ruby_es)]);
              ("set", [("tfc", Sample.tfc ["en"])])] in
  (forall other, other ≠ "ink" -> Obj.get other cs' = Obj.get other cs)
  /\ (forall k, (forall item, item ∈ [Sample.ruby_es] -> code_key item ≠ k) ->
      exists o', Obj.get "ink" cs' = Some o'
                 /\ Obj.get k o' = Obj.get k (default [] (Obj.get "ink" cs))).
Proof.
  intros cs cs'. apply (loadCollections_keeps_the_rest "ink" [Sample.ruby_es] cs cs').
  reflexivity.
Defined.

(** The sample character card. *)
Lemma schema_valid_card_is_checked_without_exception_witness :
  exists errs,
    customCheckCard (collections Sample.before_sebastian) (VObj Sample.ariel_card) = Ok errs.
Proof.
  apply (schema_valid_card_is_checked_without_exception (collections Sample.before_sebastian)
           Sample.ariel_card [("character", Sample.character)] [("amber", Sample.amber)] [] []);
    reflexivity.
Defined.

(** The sample ink among the things of the base. *)
Lemma loadThings_keeps_the_translatable_fields_witness :
  exists content,
    ("inks/amber.yml", content) ∈ [("inks/amber.yml", Sample.amber)]
    /\ forall k,
         get_prop Sample.amber k
         = if includes_str ["code"; "name"; "text"; "version"; "rules"] k && is_object content
           then Ok (field (enumerable content) k)
           else Ok VUndef.
Proof.
  apply (loadThings_keeps_the_translatable_fields [("inks/amber.yml", Sample.amber)]
           "inks/amber.yml" Sample.amber).
  reflexivity.
Defined.
